(** * ComptabiliteBTP: a double-entry ledger kept in two SQLite tables

    A shallow embedding of the class [ComptabiliteBTP] of [src/app.py] and of
    the form handler of [main] that calls it.

    - The database file is a value of type [base]: the rows of the tables
      [transactions] and [comptes], in rowid order, and the counter that
      SQLite keeps in [sqlite_sequence] for the AUTOINCREMENT key.
    - A method that opens a connection, runs statements and commits or rolls
      back is a function from the committed database to a result and the
      committed database it leaves behind.  Statements run in a small
      exception monad over the connection's working copy; a fault plan says
      which statement raises, so that the [except] branches are reachable.
    - [montant] and [solde_actuel] are REAL columns.  The operations are
      written over the interface [Montant], of which [Montant_float] is the
      binary64 arithmetic the program runs with; [Valeur] gives an amount its
      exact value, so that a sum or a difference that does not round can be
      told from one that does.
    - The columns [statut] (never written, always its default) and
      [date_saisie] (the clock at insertion) are read by no operation that is
      modelled here and are left out of the rows. *)

From Stdlib Require Import ZArith List String Ascii Bool Lia Floats.
From Stdlib Require Import Permutation Sorted.
Import ListNotations.

Set Warnings "-inexact-float".
Set Implicit Arguments.

Local Open Scope string_scope.
Local Open Scope Z_scope.

(** ** Python strings and formatting

    A [str] is a [string] whose characters are code points below 256. *)

(** The character of a decimal digit. *)
Definition chiffre (n : Z) : ascii := ascii_of_N (48 + Z.to_N n).

Module Py.

(** [str.isspace] on one character: the Unicode white space below 256. *)
Definition isspace (c : ascii) : bool :=
  let n := N_of_ascii c in
  (((9 <=? n) && (n <=? 13)) || ((28 <=? n) && (n <=? 32))
   || (n =? 133) || (n =? 160))%N.

Fixpoint lstrip (s : string) : string :=
  match s with
  | EmptyString => EmptyString
  | String c s' => if isspace c then lstrip s' else s
  end.

Fixpoint rstrip (s : string) : string :=
  match s with
  | EmptyString => EmptyString
  | String c s' =>
      match rstrip s' with
      | EmptyString => if isspace c then EmptyString else String c EmptyString
      | r => String c r
      end
  end.

(** [s.strip()] *)
Definition strip (s : string) : string := rstrip (lstrip s).

(** [not s] for a string: true on the empty string only. *)
Definition not_str (s : string) : bool :=
  match s with EmptyString => true | String _ _ => false end.

(** [not n] for an optional integer argument: true on [None] and on 0. *)
Definition not_int (n : option Z) : bool :=
  match n with None => true | Some k => k =? 0 end.

(** The decimal digits of [n >= 0] before [acc], the digit of the units last;
    [fuel] bounds the number of digits. *)
Fixpoint chiffres (fuel : nat) (n : Z) (acc : string) : string :=
  match fuel with
  | O => acc
  | S fuel' =>
      let acc' := String (chiffre (n mod 10)) acc in
      if n / 10 =? 0 then acc' else chiffres fuel' (n / 10) acc'
  end.

(** [str(n)] for an integer: its decimal digits, after a minus sign when it
    is negative.  A number has no more decimal digits than binary ones. *)
Definition str (n : Z) : string :=
  if n <? 0 then "-" ++ chiffres (S (Z.to_nat (Z.log2 (- n)))) (- n) ""
  else chiffres (S (Z.to_nat (Z.log2 n))) n "".

(** An integer that fits an INTEGER of SQLite, of 64 bits. *)
Definition int64 (n : Z) : bool := (- 2 ^ 63 <=? n) && (n <? 2 ^ 63).

(** [f"{n:02d}"]: zero padding up to width 2, the sign counting in the width. *)
Definition format_02d (n : Z) : string :=
  let s := str n in
  if (String.length s <? 2)%nat then "0" ++ s else s.

End Py.

(** ** Dates

    [date_trans] is a [datetime.date]; the sqlite3 adapter stores its
    [isoformat()], the text [YYYY-MM-DD].  The column is kept as the date, and
    the text is computed where SQLite looks at it. *)

Record date : Type := mkDate { year : Z; month : Z; day : Z }.

(** The ranges of the fields of a [datetime.date] (the day is further bounded
    by the month, which nothing below depends on). *)
Definition date_ok (d : date) : bool :=
  (1 <=? year d) && (year d <=? 9999) && (1 <=? month d) && (month d <=? 12)
  && (1 <=? day d) && (day d <=? 31).

(** ["%04d"] and ["%02d"] on numbers that fit the width. *)
Definition sur4 (n : Z) : string :=
  String (chiffre (n / 1000)) (String (chiffre (n / 100 mod 10))
    (String (chiffre (n / 10 mod 10)) (String (chiffre (n mod 10)) ""))).

Definition sur2 (n : Z) : string :=
  String (chiffre (n / 10)) (String (chiffre (n mod 10)) "").

Definition isoformat (d : date) : string :=
  sur4 (year d) ++ "-" ++ sur2 (month d) ++ "-" ++ sur2 (day d).

(** SQLite's [strftime('%Y', t)] and [strftime('%m', t)] on the text of a date. *)
Definition strftime_Y (d : date) : string := sur4 (year d).
Definition strftime_m (d : date) : string := sur2 (month d).

(** Comparison of TEXT values (BINARY collation) and of dates as calendar
    dates. *)
Definition text_ltb (s t : string) : bool :=
  match String.compare s t with Lt => true | _ => false end.

Definition date_compare (d e : date) : comparison :=
  match year d ?= year e with
  | Eq => match month d ?= month e with
          | Eq => day d ?= day e
          | c => c
          end
  | c => c
  end.

(** [d] is the same day as [e] or a later one. *)
Definition date_ge (d e : date) : Prop := date_compare d e <> Lt.

(** ** Amounts *)

Class Montant (num : Type) : Type := {
  nzero : num;                  (* DEFAULT 0 of [solde_actuel]; the 0 of a sum *)
  nadd : num -> num -> num;     (* SQL [+] *)
  nsub : num -> num -> num;     (* SQL [-] *)
  nle0 : num -> bool;           (* Python [montant <= 0] *)
  nnull : num -> bool           (* the value is bound as NULL (a NaN) *)
}.

(** What the program computes with: IEEE 754 binary64, Python's [float] and
    SQLite's REAL. *)
#[export] Instance Montant_float : Montant float := {
  nzero := 0%float;
  nadd := PrimFloat.add;
  nsub := PrimFloat.sub;
  nle0 := fun m => PrimFloat.leb m 0%float;
  nnull := PrimFloat.is_nan
}.

(** The exact value of an amount, counted in a unit of which every amount
    is a whole multiple, and whether the amount is a number at all. *)
Class Valeur (num : Type) {M : Montant num} : Type := {
  valeur : num -> Z;
  fini : num -> bool;
  valeur_nzero : valeur nzero = 0;
  fini_nzero : fini nzero = true
}.

Arguments Valeur num {M}.

(** A finite binary64 number is [m * 2^e] with [e >= -1074], or its
    opposite: a whole number of units of [2^-1074].  Infinities and NaN are
    not finite. *)
Definition valeur_float (x : float) : Z :=
  match Prim2SF x with
  | S754_finite s m e =>
      let v := Z.pos m * 2 ^ (e + 1074) in if s then - v else v
  | _ => 0
  end.

Definition fini_float (x : float) : bool :=
  match Prim2SF x with
  | S754_zero _ => true
  | S754_finite _ _ e => 0 <=? e + 1074
  | _ => false
  end.

#[export] Instance Valeur_float : Valeur float := {
  valeur := valeur_float;
  fini := fini_float;
  valeur_nzero := eq_refl;
  fini_nzero := eq_refl
}.

(** ** The tables *)

(** The seed rows of [init_database]: code, name, type. *)
Definition comptes_principaux : list (string * string * string) :=
  [ ("INVEST", "Investissement", "ACTIF");
    ("SYS_BDC", "Syst" ++ String "232" "me BDC", "ACTIF");
    ("DEP_OP", "D" ++ String "233" "penses Op" ++ String "233" "rationnelles",
     "CHARGE");
    ("CHARGE_FIX", "Charges Fixes", "CHARGE");
    ("RECETTES", "Recettes", "PRODUIT") ].

Definition codes_principaux : list string :=
  map (fun r => fst (fst r)) comptes_principaux.

(** The second component of what the two writing methods return. *)
Inductive message : Type :=
| Transaction_ajoutee       (* "Transaction ajoutee avec succes" *)
| Transaction_supprimee     (* "Transaction supprimee avec succes" *)
| Transaction_non_trouvee   (* "Transaction non trouvee" *)
| Erreur.                   (* f"Erreur: {str(e)}" *)

(** What the form handler shows. *)
Inductive affichage : Type :=
| Comptes_identiques        (* "Les comptes debit et credit doivent etre differents" *)
| Montant_non_positif       (* "Le montant doit etre positif" *)
| Description_obligatoire   (* "La description est obligatoire" *)
| Succes (m : message)      (* st.success *)
| Echec (m : message).      (* st.error *)

Section Grand_livre.

Context {num : Type} {M : Montant num}.

Record compte : Type := mkCompte {
  code_compte : string;       (* TEXT PRIMARY KEY *)
  nom_compte : string;
  type_compte : string;
  solde_actuel : num          (* REAL DEFAULT 0 *)
}.

Record transaction : Type := mkTransaction {
  id : Z;                     (* INTEGER PRIMARY KEY AUTOINCREMENT *)
  date_transaction : date;
  compte_debit : string;
  compte_credit : string;
  montant : num;              (* REAL NOT NULL *)
  description : string;
  type_transaction : string;
  reference_bdc : option string;
  responsable : option string
}.

Record base : Type := mkBase {
  transactions : list transaction;
  comptes : list compte;
  sqlite_sequence : Z         (* the largest id ever given; 0 when none was *)
}.

(** A database file that does not exist yet. *)
Definition base_vide : base := mkBase [] [] 0.

(** *** [init_database] *)

Definition init_database (b : base) : base :=
  if (List.length (comptes b) =? 0)%nat
  then mkBase (transactions b)
         (comptes b ++
          map (fun r => mkCompte (fst (fst r)) (snd (fst r)) (snd r) nzero)
            comptes_principaux)
         (sqlite_sequence b)
  else b.

(** *** Statements on a connection

    A statement either raises ([None]) or returns a value and the new working
    copy.  A cursor counts the statements it has run: under the fault plan
    [panne = Some k] the statement number [k] raises before doing anything. *)

Definition instruction (A : Type) : Type := base -> option (A * base).

Definition curseur (A : Type) : Type := nat -> base -> option (A * (nat * base)).

Definition ret {A : Type} (a : A) : curseur A := fun k b => Some (a, (k, b)).

Definition bind {A B : Type} (c : curseur A) (f : A -> curseur B) : curseur B :=
  fun k b =>
    match c k b with
    | Some (a, (k', b')) => f a k' b'
    | None => None
    end.

Definition en_panne (panne : option nat) (k : nat) : bool :=
  match panne with Some p => Nat.eqb p k | None => false end.

Definition execute {A : Type} (panne : option nat) (i : instruction A) : curseur A :=
  fun k b =>
    if en_panne panne k then None
    else match i b with
         | Some (a, b') => Some (a, (S k, b'))
         | None => None
         end.

(** The id AUTOINCREMENT gives to the next row. *)
Definition max_id (l : list transaction) : Z :=
  fold_right (fun t m => Z.max (id t) m) 0 l.

Definition prochain_id (b : base) : Z :=
  Z.max (sqlite_sequence b) (max_id (transactions b)) + 1.

(** INSERT INTO transactions (...) VALUES (?, ?, ?, ?, ?, ?, ?, ?) *)
Definition insert_transaction (d : date) (debit credit : string) (m : num)
  (desc type : string) (ref resp : option string) : instruction unit :=
  fun b =>
    if nnull m then None
    else
      let n := prochain_id b in
      Some (tt, mkBase
                  (transactions b ++ [mkTransaction n d debit credit m desc type ref resp])
                  (comptes b) n).

(** UPDATE comptes SET solde_actuel = f(solde_actuel) WHERE code_compte = ? *)
Definition maj_solde (f : num -> num) (code : string) (l : list compte)
  : list compte :=
  map (fun c =>
         if (code_compte c =? code)%string
         then mkCompte (code_compte c) (nom_compte c) (type_compte c)
                (f (solde_actuel c))
         else c)
    l.

Definition update_solde (f : num -> num) (code : string) : instruction unit :=
  fun b =>
    Some (tt, mkBase (transactions b) (maj_solde f code (comptes b))
                (sqlite_sequence b)).

(** SELECT compte_debit, compte_credit, montant FROM transactions WHERE id = ?
    followed by [fetchone()].  The id is an integer that binds to the
    statement, one of 64 bits ([Py.int64]), as every id of the table is.  A
    Python integer outside them makes [cursor.execute] raise OverflowError,
    which the method reports as an error that changes nothing; that case is
    not modelled, and what is proved of the answer to an id that is not
    stored is proved of ids of 64 bits. *)
Definition select_transaction (tid : Z) : instruction (option (string * string * num)) :=
  fun b =>
    Some (option_map (fun t => (compte_debit t, compte_credit t, montant t))
            (find (fun t => id t =? tid) (transactions b)),
          b).

(** DELETE FROM transactions WHERE id = ? *)
Definition delete_transaction (tid : Z) : instruction unit :=
  fun b =>
    Some (tt, mkBase (filter (fun t => negb (id t =? tid)) (transactions b))
                (comptes b) (sqlite_sequence b)).

(** [conn.commit()] *)
Definition commit : instruction unit := fun b => Some (tt, b).

End Grand_livre.

Arguments compte : clear implicits.
Arguments transaction : clear implicits.
Arguments base : clear implicits.
Arguments instruction : clear implicits.
Arguments curseur : clear implicits.

Declare Scope curseur_scope.
Delimit Scope curseur_scope with curseur.
Notation "x <- c ;; k" := (bind c (fun x => k))
  (at level 61, c at next level, right associativity) : curseur_scope.
Notation "c ;; k" := (bind c (fun _ => k))
  (at level 61, right associativity) : curseur_scope.

(** ** The methods of [ComptabiliteBTP] *)

Section Methodes.

Context {num : Type} {M : Montant num}.

Local Open Scope curseur_scope.

(** *** [ajouter_transaction]

    The [try] block is the cursor run; [except] rolls back to the committed
    database [b]; when [commit] has returned the working copy is committed. *)
Definition ajouter_transaction (panne : option nat) (date_trans : date)
  (compte_debit compte_credit : string) (montant : num)
  (description type_trans : string) (ref_bdc responsable : option string)
  (b : base num) : (bool * message) * base num :=
  match
    (execute panne (insert_transaction date_trans compte_debit compte_credit
                      montant description type_trans ref_bdc responsable) ;;
     execute panne (update_solde (fun solde => nadd solde montant) compte_debit) ;;
     execute panne (update_solde (fun solde => nsub solde montant) compte_credit) ;;
     execute panne commit ;;
     ret (true, Transaction_ajoutee)) 0%nat b
  with
  | Some (r, (_, b')) => (r, b')
  | None => ((false, Erreur), b)
  end.

(** *** [supprimer_transaction] *)
Definition supprimer_transaction (panne : option nat) (transaction_id : Z)
  (b : base num) : (bool * message) * base num :=
  match
    (result <- execute panne (select_transaction transaction_id) ;;
     match result with
     | Some (compte_debit, compte_credit, montant) =>
         execute panne (update_solde (fun solde => nsub solde montant) compte_debit) ;;
         execute panne (update_solde (fun solde => nadd solde montant) compte_credit) ;;
         execute panne (delete_transaction transaction_id) ;;
         execute panne commit ;;
         ret (true, Transaction_supprimee)
     | None => ret (false, Transaction_non_trouvee)
     end) 0%nat b
  with
  | Some (r, (_, b')) => (r, b')
  | None => ((false, Erreur), b)
  end.

(** *** [get_transactions]

    ORDER BY date_transaction DESC compares the stored texts.  SQL leaves the
    order of rows with equal keys open; SQLite's sorter keeps them in the
    order of the scan, which is the order of the table, and so does
    [order_by_date_desc].  The limit is written into the query as a literal:
    one that is not an integer of 64 bits makes the query fail, and the bare
    [except] answers with an empty frame. *)
Fixpoint inserer (t : transaction num) (l : list (transaction num))
  : list (transaction num) :=
  match l with
  | [] => [t]
  | u :: l' =>
      if text_ltb (isoformat (date_transaction t)) (isoformat (date_transaction u))
      then u :: inserer t l'
      else t :: u :: l'
  end.

Definition order_by_date_desc (l : list (transaction num)) : list (transaction num) :=
  fold_right inserer [] l.

(** LIMIT n: a negative n is no limit. *)
Definition sql_limit {A : Type} (n : Z) (rows : list A) : list A :=
  if n <? 0 then rows else firstn (Z.to_nat n) rows.

Definition get_transactions (limit : option Z) (b : base num)
  : list (transaction num) :=
  let rows := order_by_date_desc (transactions b) in
  match limit with
  | Some n =>
      if Py.not_int limit then rows
      else if Py.int64 n then sql_limit n rows
      else []
  | None => rows
  end.

(** *** [get_synthese_mensuelle]

    GROUP BY type_transaction with SUM(montant): one row per type; a sum adds
    the amounts of a group to 0 in the order of the table, and SQLite, which
    groups through a sort on the type, returns the groups in the order of
    their types. *)
Fixpoint cumuler (k : string) (v : num) (acc : list (string * num))
  : list (string * num) :=
  match acc with
  | [] => [(k, nadd nzero v)]
  | (k', s) :: acc' =>
      if (k' =? k)%string then (k', nadd s v) :: acc'
      else (k', s) :: cumuler k v acc'
  end.

Definition cumuls (rows : list (string * num)) : list (string * num) :=
  fold_left (fun acc r => cumuler (fst r) (snd r) acc) rows [].

Fixpoint inserer_groupe (g : string * num) (l : list (string * num))
  : list (string * num) :=
  match l with
  | [] => [g]
  | h :: l' =>
      if text_ltb (fst h) (fst g) then h :: inserer_groupe g l'
      else g :: h :: l'
  end.

Definition order_by_type (l : list (string * num)) : list (string * num) :=
  fold_right inserer_groupe [] l.

Definition group_by_sum (rows : list (string * num)) : list (string * num) :=
  order_by_type (cumuls rows).

(** [x or default] as written with [if not x: x = default]. *)
Definition ou_defaut (x : option Z) (defaut : Z) : Z :=
  match x with
  | Some k => if Py.not_int x then defaut else k
  | None => defaut
  end.

(** [maintenant] is the date that [datetime.now()] reads. *)
Definition get_synthese_mensuelle (maintenant : date) (annee mois : option Z)
  (b : base num) : list (string * num) :=
  let annee := ou_defaut annee (year maintenant) in
  let mois := ou_defaut mois (month maintenant) in
  let params := (Py.str annee, Py.format_02d mois) in
  group_by_sum
    (map (fun t => (type_transaction t, montant t))
       (filter (fun t =>
                  (strftime_Y (date_transaction t) =? fst params)%string
                  && (strftime_m (date_transaction t) =? snd params)%string)
          (transactions b))).

(** *** The form of [main]: the branch [if submitted:] *)
Definition main_submitted (panne : option nat) (date_trans : date)
  (compte_debit compte_credit : string) (montant : num)
  (description type_trans ref_bdc responsable : string) (b : base num)
  : affichage * base num :=
  if (compte_debit =? compte_credit)%string then (Comptes_identiques, b)
  else if nle0 montant then (Montant_non_positif, b)
  else if Py.not_str (Py.strip description) then (Description_obligatoire, b)
  else
    let '((success, message), b') :=
      ajouter_transaction panne date_trans compte_debit compte_credit montant
        description type_trans (Some ref_bdc) (Some responsable) b in
    if success then (Succes message, b') else (Echec message, b').

(** ** States and the quantities the specification speaks of *)

(** The databases reached from a fresh, initialised one by calls of the two
    writing methods, under any fault plan; [codes_ok] restricts the pairs of
    account codes the calls of [ajouter_transaction] are made with. *)
Inductive accessible (codes_ok : string -> string -> Prop) : base num -> Prop :=
| acc_init : accessible codes_ok (init_database base_vide)
| acc_ajouter : forall b panne d debit credit m desc type ref resp,
    accessible codes_ok b ->
    codes_ok debit credit ->
    accessible codes_ok
      (snd (ajouter_transaction panne d debit credit m desc type ref resp b))
| acc_supprimer : forall b panne tid,
    accessible codes_ok b ->
    accessible codes_ok (snd (supprimer_transaction panne tid b)).

(** [sum(...)] of a list of amounts. *)
Definition somme (l : list num) : num := fold_left nadd l nzero.

Definition somme_soldes (b : base num) : num :=
  somme (map (@solde_actuel num) (comptes b)).

Definition total_debit (code : string) (b : base num) : num :=
  somme (map (@montant num)
           (filter (fun t => (compte_debit t =? code)%string) (transactions b))).

Definition total_credit (code : string) (b : base num) : num :=
  somme (map (@montant num)
           (filter (fun t => (compte_credit t =? code)%string) (transactions b))).

(** The balance of an account, [None] when the code is not in the table. *)
Definition solde (code : string) (b : base num) : option num :=
  option_map (@solde_actuel num)
    (find (fun c => (code_compte c =? code)%string) (comptes b)).

(** The transactions of a calendar month, and their amounts per type. *)
Definition du_mois (annee mois : Z) (t : transaction num) : bool :=
  (year (date_transaction t) =? annee) && (month (date_transaction t) =? mois).

Definition total_type (annee mois : Z) (type : string) (b : base num) : num :=
  somme (map (@montant num)
           (filter (fun t => du_mois annee mois t
                             && (type_transaction t =? type)%string)
              (transactions b))).

(** The total that a monthly summary gives for a type, when it has a row for
    it. *)
Fixpoint total_du_type (type : string) (synthese : list (string * num))
  : option num :=
  match synthese with
  | [] => None
  | (k, v) :: reste =>
      if (k =? type)%string then Some v else total_du_type type reste
  end.

End Methodes.

(** ** The effects of the two writing methods, and the orders of a listing *)

Section Effets.

Context {num : Type} {M : Montant num}.

(** The three effects of recording: the row appended under the next id, the
    amount added to the debit account, the amount taken from the credit
    account. *)
Definition effets_ajout (d : date) (debit credit : string) (m : num)
  (desc type : string) (ref resp : option string) (b : base num) : base num :=
  mkBase
    (transactions b ++ [mkTransaction (prochain_id b) d debit credit m desc type ref resp])
    (maj_solde (fun s => nsub s m) credit
       (maj_solde (fun s => nadd s m) debit (comptes b)))
    (prochain_id b).

(** The three effects of reversing the stored transaction [t]. *)
Definition effets_suppression (t : transaction num) (b : base num) : base num :=
  mkBase
    (filter (fun u => negb (id u =? id t)) (transactions b))
    (maj_solde (fun s => nadd s (montant t)) (compte_credit t)
       (maj_solde (fun s => nsub s (montant t)) (compte_debit t) (comptes b)))
    (sqlite_sequence b).

(** The row [c'] of the table of accounts is the row [c] after an UPDATE
    that applies [f] to the balance of [code] and a second one that applies
    [g] to the balance of [code']. *)
Definition compte_apres (f : num -> num) (code : string) (g : num -> num)
  (code' : string) (c c' : compte num) : Prop :=
  code_compte c' = code_compte c
  /\ nom_compte c' = nom_compte c
  /\ type_compte c' = type_compte c
  /\ solde_actuel c'
     = let s := if (code_compte c =? code)%string
                then f (solde_actuel c) else solde_actuel c in
       if (code_compte c =? code')%string then g s else s.

(** A row that may stand before another in a listing by date, latest first. *)
Definition ordre_date (t u : transaction num) : Prop :=
  date_ge (date_transaction t) (date_transaction u).

(** The same, rows of one date standing by id, largest first. *)
Definition ordre_date_id (t u : transaction num) : Prop :=
  date_compare (date_transaction t) (date_transaction u) = Gt
  \/ (date_compare (date_transaction t) (date_transaction u) = Eq /\ id u < id t).

(** Any pair of codes, and the pairs of codes of the chart of accounts. *)
Definition tous_codes (debit credit : string) : Prop := True.

Definition codes_connus (debit credit : string) : Prop :=
  In debit codes_principaux /\ In credit codes_principaux.

End Effets.

(** A description made of white space only. *)
Definition blanche (s : string) : Prop :=
  Forall (fun c => Py.isspace c = true) (list_ascii_of_string s).

(** ** Runs of the program on binary64 amounts *)

Module Scenarios.

Definition maintenant : date := mkDate 2026 11 3.
Definition le_10_janvier : date := mkDate 2024 1 10.

(** A fresh database after [ComptabiliteBTP()]. *)
Definition b0 : base float := init_database base_vide.

Definition ajouter (d : date) (debit credit : string) (m : float) (type : string)
  (b : base float) : base float :=
  snd (ajouter_transaction None d debit credit m "x" type None None b).

Definition supprimer (tid : Z) (b : base float) : base float :=
  snd (supprimer_transaction None tid b).

(** Scenario A and B of the specification. *)
Definition bA : base float :=
  ajouter le_10_janvier "INVEST" "RECETTES" 1000%float "Investissement" b0.
Definition bB : base float := supprimer 1 bA.

(** Scenario C. *)
Definition bC : base float :=
  ajouter (mkDate 2024 2 1) "SYS_BDC" "RECETTES" 700%float "BDC"
    (ajouter (mkDate 2024 1 20) "CHARGE_FIX" "RECETTES" 300%float "Charge Fixe"
       (ajouter (mkDate 2024 1 5) "SYS_BDC" "RECETTES" 500%float "BDC" b0)).

(** A credit code that is not in the chart of accounts. *)
Definition b_inconnu : base float :=
  ajouter le_10_janvier "INVEST" "XXX" 1000%float "Investissement" b0.

(** Amounts that binary64 does not add exactly. *)
Definition b_01 : base float :=
  ajouter le_10_janvier "INVEST" "RECETTES" 0.1%float "BDC" b0.
Definition b_01_02 : base float :=
  ajouter le_10_janvier "INVEST" "RECETTES" 0.2%float "BDC" b_01.
Definition b_01_02_moins_02 : base float := supprimer 2 b_01_02.
Definition b_01_02_moins_01 : base float := supprimer 1 b_01_02.
Definition b_trois_comptes : base float :=
  ajouter le_10_janvier "INVEST" "SYS_BDC" 0.2%float "BDC" b_01.

(** A transaction of the year 999. *)
Definition b_an_999 : base float :=
  ajouter (mkDate 999 1 15) "SYS_BDC" "RECETTES" 500%float "BDC" b0.

End Scenarios.

(** ** The rest of the class and of [main] *)

(** The options of the two [st.selectbox] of accounts in the form. *)
Definition options_comptes : list string :=
  ["INVEST"; "SYS_BDC"; "DEP_OP"; "CHARGE_FIX"; "RECETTES"].

Section Lectures.

Context {num : Type} {M : Montant num}.

(** *** [get_soldes_comptes]

    ORDER BY code_compte compares the codes as texts, smallest first. *)
Fixpoint inserer_compte (c : compte num) (l : list (compte num))
  : list (compte num) :=
  match l with
  | [] => [c]
  | d :: l' =>
      if text_ltb (code_compte d) (code_compte c)
      then d :: inserer_compte c l'
      else c :: d :: l'
  end.

Definition order_by_code_compte (l : list (compte num)) : list (compte num) :=
  fold_right inserer_compte [] l.

Definition get_soldes_comptes (b : base num) : list (compte num) :=
  order_by_code_compte (comptes b).

(** A row that may stand before another in a listing by code. *)
Definition ordre_code (c d : compte num) : Prop :=
  String.compare (code_compte c) (code_compte d) <> Gt.

(** *** The page "Gestion" of [main]

    [nb_trans] and [derniere_trans] as [main] computes them from
    [get_transactions()]; a metric that is shown only when the table is not
    empty is [None] when it is. *)
Definition nb_trans (b : base num) : nat :=
  match get_transactions None b with
  | [] => 0%nat
  | transactions => List.length transactions
  end.

Definition derniere_trans (b : base num) : option date :=
  match get_transactions None b with
  | [] => None
  | t :: _ => Some (date_transaction t)
  end.

(** The button "Supprimer": it is there when [get_transactions()] is not
    empty. *)
Definition main_supprimer (panne : option nat) (trans_id : Z) (b : base num)
  : option (affichage * base num) :=
  match get_transactions None b with
  | [] => None
  | _ :: _ =>
      let '((success, message), b') := supprimer_transaction panne trans_id b in
      Some (if success then (Succes message, b') else (Echec message, b'))
  end.

(** What the form requires of a transaction before it records it. *)
Definition transaction_valide (t : transaction num) : Prop :=
  compte_debit t <> compte_credit t
  /\ nle0 (montant t) = false
  /\ ~ blanche (description t)
  /\ In (compte_debit t) options_comptes
  /\ In (compte_credit t) options_comptes.

(** The databases that the pages of [main] reach: a session constructs
    [ComptabiliteBTP()], the form records with two codes of its select boxes,
    the button reverses. *)
Inductive accessible_interface : base num -> Prop :=
| ai_init : accessible_interface (init_database base_vide)
| ai_session : forall b,
    accessible_interface b -> accessible_interface (init_database b)
| ai_submitted : forall b panne d debit credit m desc type ref resp,
    accessible_interface b ->
    In debit options_comptes ->
    In credit options_comptes ->
    accessible_interface
      (snd (main_submitted panne d debit credit m desc type ref resp b))
| ai_supprimer : forall b panne trans_id r b',
    accessible_interface b ->
    main_supprimer panne trans_id b = Some (r, b') ->
    accessible_interface b'.

End Lectures.

(** ** Runs in which no update of a balance rounds

    The program computes on binary64: an UPDATE of a balance may round, and
    after it the balances are no longer what the transactions say.  What
    follows names the runs in which no UPDATE does. *)

Section Exactitude.

Context {num : Type} {M : Montant num} {V : Valeur num}.

(** [s + m] is computed exactly: [m] and the result are finite, and the
    value of the result is the sum of the values.  The same of [s - m]. *)
Definition addition_exacte (s m : num) : bool :=
  fini m && fini (nadd s m) && (valeur (nadd s m) =? valeur s + valeur m).

Definition soustraction_exacte (s m : num) : bool :=
  fini m && fini (nsub s m) && (valeur (nsub s m) =? valeur s - valeur m).

(** An UPDATE of the balance of [code] is exact on every row it changes. *)
Definition maj_exacte (exacte : num -> bool) (code : string)
  (l : list (compte num)) : bool :=
  forallb (fun c => negb (code_compte c =? code)%string || exacte (solde_actuel c))
    l.

(** The two UPDATEs of [ajouter_transaction], the second one on the table
    that the first one leaves. *)
Definition ajout_exact (debit credit : string) (m : num) (b : base num) : bool :=
  maj_exacte (fun s => addition_exacte s m) debit (comptes b)
  && maj_exacte (fun s => soustraction_exacte s m) credit
       (maj_solde (fun s => nadd s m) debit (comptes b)).

(** The two UPDATEs of [supprimer_transaction] on the row it has found. *)
Definition suppression_exacte (t : transaction num) (b : base num) : bool :=
  maj_exacte (fun s => soustraction_exacte s (montant t)) (compte_debit t)
    (comptes b)
  && maj_exacte (fun s => addition_exacte s (montant t)) (compte_credit t)
       (maj_solde (fun s => nsub s (montant t)) (compte_debit t) (comptes b)).

(** The databases of [accessible] that are reached without rounding: the
    UPDATEs of every call that succeeded were exact. *)
Inductive accessible_exact (codes_ok : string -> string -> Prop)
  : base num -> Prop :=
| acce_init : accessible_exact codes_ok (init_database base_vide)
| acce_ajouter : forall b panne d debit credit m desc type ref resp,
    accessible_exact codes_ok b ->
    codes_ok debit credit ->
    (fst (fst (ajouter_transaction panne d debit credit m desc type ref resp b))
     = true ->
     ajout_exact debit credit m b = true) ->
    accessible_exact codes_ok
      (snd (ajouter_transaction panne d debit credit m desc type ref resp b))
| acce_supprimer : forall b panne tid,
    accessible_exact codes_ok b ->
    (forall t,
        fst (fst (supprimer_transaction panne tid b)) = true ->
        find (fun u => id u =? tid) (transactions b) = Some t ->
        suppression_exacte t b = true) ->
    accessible_exact codes_ok (snd (supprimer_transaction panne tid b)).

(** The same of the databases that the pages of [main] reach. *)
Inductive accessible_interface_exact : base num -> Prop :=
| aie_init : accessible_interface_exact (init_database base_vide)
| aie_session : forall b,
    accessible_interface_exact b -> accessible_interface_exact (init_database b)
| aie_submitted : forall b panne d debit credit m desc type ref resp,
    accessible_interface_exact b ->
    In debit options_comptes ->
    In credit options_comptes ->
    (fst (main_submitted panne d debit credit m desc type ref resp b)
     = Succes Transaction_ajoutee ->
     ajout_exact debit credit m b = true) ->
    accessible_interface_exact
      (snd (main_submitted panne d debit credit m desc type ref resp b))
| aie_supprimer : forall b panne trans_id r b',
    accessible_interface_exact b ->
    main_supprimer panne trans_id b = Some (r, b') ->
    (forall t,
        r = Succes Transaction_supprimee ->
        find (fun u => id u =? trans_id) (transactions b) = Some t ->
        suppression_exacte t b = true) ->
    accessible_interface_exact b'.

(** The sum of the values of a list of amounts, and the additions of
    [somme] on the list being exact, from the accumulator [acc] on. *)
Definition somme_valeurs (l : list num) : Z :=
  fold_right (fun x s => valeur x + s) 0 l.

Fixpoint additions_exactes (acc : num) (l : list num) : bool :=
  match l with
  | [] => true
  | x :: l' => addition_exacte acc x && additions_exactes (nadd acc x) l'
  end.

(** The values of the amounts of the stored transactions that debit a code,
    and of those that credit it, summed. *)
Definition valeur_debit (code : string) (b : base num) : Z :=
  somme_valeurs
    (map (@montant num)
       (filter (fun t => (compte_debit t =? code)%string) (transactions b))).

Definition valeur_credit (code : string) (b : base num) : Z :=
  somme_valeurs
    (map (@montant num)
       (filter (fun t => (compte_credit t =? code)%string) (transactions b))).

(** The row [c] of the table of accounts is as the stored transactions say:
    its balance is finite, so are the amounts of the transactions on its
    code, and the value of its balance is the value of what they debit minus
    the value of what they credit. *)
Definition solde_exact (b : base num) (c : compte num) : Prop :=
  fini (solde_actuel c) = true
  /\ (forall t, In t (transactions b) ->
        compte_debit t = code_compte c \/ compte_credit t = code_compte c ->
        fini (montant t) = true)
  /\ valeur (solde_actuel c)
     = valeur_debit (code_compte c) b - valeur_credit (code_compte c) b.

End Exactitude.

(** Runs of the pages of [main]. *)
Module Scenarios_main.

(** The transaction of scenario A as it is stored. *)
Definition tA : transaction float :=
  mkTransaction 1 Scenarios.le_10_janvier "INVEST" "RECETTES" 1000%float "x"
    "Investissement" None None.

(** The form, filled as in scenario A, on a fresh database. *)
Definition b_formulaire : base float :=
  snd (main_submitted None Scenarios.le_10_janvier "INVEST" "RECETTES"
         1000%float "x" "Investissement" "" "" Scenarios.b0).

(** Scenario C after two more recordings and their reversals, the second
    one first. *)
Definition bC_detour : base float :=
  Scenarios.supprimer 4
    (Scenarios.supprimer 5
       (Scenarios.ajouter (mkDate 2024 3 2) "DEP_OP" "INVEST" 40%float "Autre"
          (Scenarios.ajouter (mkDate 2024 3 1) "INVEST" "DEP_OP" 250%float
             "Achat Mat" Scenarios.bC))).

End Scenarios_main.

(** *** [check_password]

    The two keys of [st.session_state] that it uses. *)
Record session_state : Type := mkSession {
  password : option string;
  password_correct : option bool
}.

Definition session_vide : session_state := mkSession None None.

(** The callback [password_entered]; [None] is the KeyError of
    [st.session_state["password"]]. *)
Definition password_entered (s : session_state) : option session_state :=
  match password s with
  | None => None
  | Some p =>
      if (p =? "btp2024")%string
      then Some (mkSession None (Some true))
      else Some (mkSession (password s) (Some false))
  end.

(** The text input of key "password": the text that is entered is stored
    under the key, then the callback runs. *)
Definition text_input_password (texte : string) (s : session_state)
  : option session_state :=
  password_entered (mkSession (Some texte) (password_correct s)).

(** What [check_password()] returns. *)
Definition check_password (s : session_state) : bool :=
  match password_correct s with
  | None => false
  | Some correct => correct
  end.

(** * Properties *)

Unset Implicit Arguments.

(** ** The two writing methods, statement by statement *)

Section Methodes_eq.

Context {num : Type} {M : Montant num}.

(** A call of [ajouter_transaction] either commits the three effects or
    leaves the database as it was: the latter when one of its four statements
    (the INSERT, the two UPDATEs, the commit) raises. *)
Lemma ajouter_transaction_eq :
  forall panne d debit credit (m : num) desc type ref resp b,
    ajouter_transaction panne d debit credit m desc type ref resp b =
    if nnull m || match panne with Some k => (k <? 4)%nat | None => false end
    then ((false, Erreur), b)
    else ((true, Transaction_ajoutee),
          effets_ajout d debit credit m desc type ref resp b).
Proof.
  intros panne d debit credit m desc type ref resp b.
  unfold ajouter_transaction, bind, execute, insert_transaction, effets_ajout.
  destruct panne as [[|[|[|[|k]]]]|]; destruct (nnull m); reflexivity.
Qed.

(** A call of [supprimer_transaction]: nothing is found, or a statement
    raises, and the database is as it was; or the three effects of reversing
    the row that was found are committed. *)
Lemma supprimer_transaction_eq :
  forall panne tid (b : base num),
    supprimer_transaction panne tid b =
    match panne, find (fun t => id t =? tid) (transactions b) with
    | Some 0%nat, _ => ((false, Erreur), b)
    | _, None => ((false, Transaction_non_trouvee), b)
    | Some k, Some t =>
        if (k <? 5)%nat then ((false, Erreur), b)
        else ((true, Transaction_supprimee),
              mkBase (filter (fun u => negb (id u =? tid)) (transactions b))
                (maj_solde (fun s => nadd s (montant t)) (compte_credit t)
                   (maj_solde (fun s => nsub s (montant t)) (compte_debit t)
                      (comptes b)))
                (sqlite_sequence b))
    | None, Some t =>
        ((true, Transaction_supprimee),
         mkBase (filter (fun u => negb (id u =? tid)) (transactions b))
           (maj_solde (fun s => nadd s (montant t)) (compte_credit t)
              (maj_solde (fun s => nsub s (montant t)) (compte_debit t)
                 (comptes b)))
           (sqlite_sequence b))
    end.
Proof.
  intros panne tid b.
  unfold supprimer_transaction, bind, execute, select_transaction.
  destruct (find (fun t => id t =? tid) (transactions b)) as [t|];
    destruct panne as [[|[|[|[|[|k]]]]]|]; reflexivity.
Qed.

Lemma find_id_some :
  forall tid (l : list (transaction num)) t,
    find (fun t => id t =? tid) l = Some t -> In t l /\ id t = tid.
Proof.
  intros tid l t H. apply find_some in H. destruct H as [Hin Heq].
  split; [assumption | now apply Z.eqb_eq].
Qed.

Lemma find_id_none :
  forall tid (l : list (transaction num)),
    (forall t, In t l -> id t <> tid) -> find (fun t => id t =? tid) l = None.
Proof.
  intros tid l H. induction l as [|u l IH]; simpl; [reflexivity|].
  destruct (Z.eqb_spec (id u) tid) as [E|_].
  - exfalso. apply (H u); [now left | exact E].
  - apply IH. intros t Ht. apply H. now right.
Qed.

(** A stored id is the id of one row, which the SELECT finds. *)
Lemma find_id_stocke :
  forall (l : list (transaction num)) t,
    NoDup (map (@id num) l) -> In t l ->
    find (fun u => id u =? id t) l = Some t.
Proof.
  induction l as [|u l IH]; intros t Hnd Hin; [contradiction|].
  simpl in *. inversion Hnd as [|? ? Hu Hl]; subst.
  destruct Hin as [Hin|Hin].
  - subst u. now rewrite Z.eqb_refl.
  - destruct (Z.eqb_spec (id u) (id t)) as [E|_].
    + exfalso. apply Hu. rewrite E. now apply in_map.
    + now apply IH.
Qed.

(** Two UPDATEs one after the other, row by row. *)
Lemma maj_solde_compte_apres :
  forall f code g code' (l : list (compte num)),
    Forall2 (compte_apres f code g code') l
      (maj_solde g code' (maj_solde f code l)).
Proof.
  intros f code g code' l. induction l as [|c l IH]; simpl; constructor.
  - unfold compte_apres.
    destruct (code_compte c =? code)%string; simpl;
      destruct (code_compte c =? code')%string; simpl; auto.
  - exact IH.
Qed.

End Methodes_eq.

(** ** Initialisation *)

Section Initialisation.

Context {num : Type} {M : Montant num}.

(** C9: [init_database] is idempotent; on a database whose table of accounts
    is empty it creates exactly the five accounts INVEST, SYS_BDC, DEP_OP,
    CHARGE_FIX and RECETTES, each with balance 0; on a database that has
    accounts it changes nothing. *)
Theorem init_database_idempotent :
  (forall b : base num, init_database (init_database b) = init_database b)
  /\ (forall (l : list (transaction num)) (s : Z),
        map (fun c => (code_compte c, solde_actuel c))
          (comptes (init_database (mkBase l [] s)))
        = [("INVEST", nzero); ("SYS_BDC", nzero); ("DEP_OP", nzero);
           ("CHARGE_FIX", nzero); ("RECETTES", nzero)]
        /\ transactions (init_database (mkBase l [] s)) = l
        /\ sqlite_sequence (init_database (mkBase l [] s)) = s)
  /\ (forall (l : list (transaction num)) (c : compte num) (cs : list (compte num))
        (s : Z),
        init_database (mkBase l (c :: cs) s) = mkBase l (c :: cs) s).
Proof.
  split; [|split].
  - intros [l [|c cs] s]; reflexivity.
  - intros l s. repeat split; reflexivity.
  - reflexivity.
Qed.

End Initialisation.

(** ** Atomicity and unknown ids *)

Section Atomicite.

Context {num : Type} {M : Montant num}.

(** C3: a call of [ajouter_transaction] and a call of
    [supprimer_transaction] apply their three effects (the row inserted or
    deleted, the amount on the debit account, the opposite amount on the
    credit account) together or not at all.  When no statement raises, a
    recording of an amount that is a number succeeds and commits the row
    under the next id, the amount added to the balance of the debit account
    and taken from the balance of the credit account, and the reversal of a
    stored transaction succeeds and commits the row deleted, the amount taken
    from the balance of its debit account and added to the balance of its
    credit account.  Whatever statement raises, the INSERT, an UPDATE, the
    SELECT, the DELETE or the commit, the database is left exactly as it was
    before the call and the call reports a failure; so it is after a
    recording of NaN and after the reversal of an id that is not stored. *)
Theorem ecritures_atomiques :
  forall d debit credit (m : num) desc type ref resp tid (b : base num),
    (nnull m = false ->
     exists b',
       ajouter_transaction None d debit credit m desc type ref resp b
       = ((true, Transaction_ajoutee), b')
       /\ transactions b'
          = (transactions b
             ++ [mkTransaction (prochain_id b) d debit credit m desc type ref
                   resp])%list
       /\ sqlite_sequence b' = prochain_id b
       /\ Forall2
            (compte_apres (fun s => nadd s m) debit (fun s => nsub s m) credit)
            (comptes b) (comptes b'))
    /\ (forall k, (k < 4)%nat ->
          ajouter_transaction (Some k) d debit credit m desc type ref resp b
          = ((false, Erreur), b))
    /\ (forall k, (4 <= k)%nat ->
          ajouter_transaction (Some k) d debit credit m desc type ref resp b
          = ajouter_transaction None d debit credit m desc type ref resp b)
    /\ (nnull m = true ->
        forall panne,
          ajouter_transaction panne d debit credit m desc type ref resp b
          = ((false, Erreur), b))
    /\ (forall t,
          NoDup (map (@id num) (transactions b)) ->
          In t (transactions b) ->
          id t = tid ->
          exists b',
            supprimer_transaction None tid b = ((true, Transaction_supprimee), b')
            /\ transactions b'
               = filter (fun u => negb (id u =? tid)) (transactions b)
            /\ sqlite_sequence b' = sqlite_sequence b
            /\ Forall2
                 (compte_apres (fun s => nsub s (montant t)) (compte_debit t)
                    (fun s => nadd s (montant t)) (compte_credit t))
                 (comptes b) (comptes b'))
    /\ (forall k, (k < 5)%nat ->
          snd (supprimer_transaction (Some k) tid b) = b
          /\ fst (fst (supprimer_transaction (Some k) tid b)) = false)
    /\ (forall k, (5 <= k)%nat ->
          supprimer_transaction (Some k) tid b = supprimer_transaction None tid b)
    /\ ((forall t, In t (transactions b) -> id t <> tid) ->
        forall panne,
          snd (supprimer_transaction panne tid b) = b
          /\ fst (fst (supprimer_transaction panne tid b)) = false).
Proof.
  intros d debit credit m desc type ref resp tid b.
  split; [|split; [|split; [|split; [|split; [|split; [|split]]]]]].
  - intro Hm. rewrite ajouter_transaction_eq, Hm. simpl.
    eexists. split; [reflexivity|]. simpl.
    split; [reflexivity|]. split; [reflexivity|].
    apply maj_solde_compte_apres.
  - intros k Hk. rewrite ajouter_transaction_eq.
    apply Nat.ltb_lt in Hk. rewrite Hk, orb_true_r. reflexivity.
  - intros k Hk. rewrite !ajouter_transaction_eq.
    apply Nat.ltb_ge in Hk. now rewrite Hk.
  - intros Hm panne. rewrite ajouter_transaction_eq, Hm. reflexivity.
  - intros t Hnd Hin Hid. subst tid.
    rewrite supprimer_transaction_eq, (find_id_stocke _ _ Hnd Hin).
    eexists. split; [reflexivity|]. simpl.
    split; [reflexivity|]. split; [reflexivity|].
    apply maj_solde_compte_apres.
  - intros k Hk. rewrite supprimer_transaction_eq.
    apply Nat.ltb_lt in Hk.
    destruct k as [|k]; [now split|].
    destruct (find (fun t => id t =? tid) (transactions b)); [|now split].
    rewrite Hk. now split.
  - intros k Hk. rewrite !supprimer_transaction_eq.
    destruct k as [|k]; [lia|].
    apply Nat.ltb_ge in Hk.
    destruct (find (fun t => id t =? tid) (transactions b)); [|reflexivity].
    now rewrite Hk.
  - intros H panne. rewrite supprimer_transaction_eq, (find_id_none _ _ H).
    destruct panne as [[|k]|]; now split.
Qed.

(** C6: [supprimer_transaction] on an id that no stored transaction has, an
    integer of 64 bits as the ids of the table are, answers "Transaction non
    trouvee" and leaves the transactions and every balance as they were. *)
Theorem supprimer_transaction_inconnue :
  forall tid (b : base num),
    Py.int64 tid = true ->
    (forall t, In t (transactions b) -> id t <> tid) ->
    supprimer_transaction None tid b = ((false, Transaction_non_trouvee), b)
    /\ forall panne,
         fst (fst (supprimer_transaction panne tid b)) = false
         /\ snd (supprimer_transaction panne tid b) = b.
Proof.
  intros tid b _ H. split; [|intros panne]; rewrite supprimer_transaction_eq;
    rewrite (find_id_none _ _ H).
  - reflexivity.
  - destruct panne as [[|k]|]; now split.
Qed.

End Atomicite.

Lemma supprimer_transaction_inconnue_witness :
  Py.int64 7 = true
  /\ (forall t, In t (transactions Scenarios.bA) -> id t <> 7)
  /\ supprimer_transaction None 7 Scenarios.bA
     = ((false, Transaction_non_trouvee), Scenarios.bA).
Proof.
  assert (H : forall t, In t (transactions Scenarios.bA) -> id t <> 7).
  { intros t [Ht|[]]. rewrite <- Ht. discriminate. }
  split; [reflexivity|]. split; [exact H|].
  exact (proj1 (supprimer_transaction_inconnue 7 Scenarios.bA eq_refl H)).
Defined.

(** ** Dates and their texts *)

Lemma chiffre_compare :
  forall i j, 0 <= i <= 9 -> 0 <= j <= 9 ->
    Ascii.compare (chiffre i) (chiffre j) = (i ?= j).
Proof.
  intros i j Hi Hj.
  assert (Ei : i = 0 \/ i = 1 \/ i = 2 \/ i = 3 \/ i = 4 \/ i = 5 \/ i = 6
               \/ i = 7 \/ i = 8 \/ i = 9) by lia.
  assert (Ej : j = 0 \/ j = 1 \/ j = 2 \/ j = 3 \/ j = 4 \/ j = 5 \/ j = 6
               \/ j = 7 \/ j = 8 \/ j = 9) by lia.
  clear Hi Hj.
  repeat (destruct Ei as [Ei|Ei]); subst i;
    repeat (destruct Ej as [Ej|Ej]); subst j; reflexivity.
Qed.

(** Two numbers of four digits compare as their texts do. *)
Lemma sur4_compare :
  forall n p s t, 0 <= n <= 9999 -> 0 <= p <= 9999 ->
    String.compare (sur4 n ++ s) (sur4 p ++ t)
    = match n ?= p with Eq => String.compare s t | c => c end.
Proof.
  intros n p s t Hn Hp. unfold sur4. cbn [append String.compare].
  rewrite !chiffre_compare by (Z.div_mod_to_equations; lia).
  destruct (Z.compare_spec (n / 1000) (p / 1000)) as [E3|L3|G3];
    [destruct (Z.compare_spec (n / 100 mod 10) (p / 100 mod 10)) as [E2|L2|G2];
     [destruct (Z.compare_spec (n / 10 mod 10) (p / 10 mod 10)) as [E1|L1|G1];
      [destruct (Z.compare_spec (n mod 10) (p mod 10)) as [E0|L0|G0]| |]| |]| |].
  all: first
    [ replace (n ?= p) with Eq
        by (symmetry; apply Z.compare_eq_iff; Z.div_mod_to_equations; lia)
    | replace (n ?= p) with Lt
        by (symmetry; apply Z.compare_lt_iff; Z.div_mod_to_equations; lia)
    | replace (n ?= p) with Gt
        by (symmetry; apply Z.compare_gt_iff; Z.div_mod_to_equations; lia) ];
    reflexivity.
Qed.

Lemma sur2_compare :
  forall n p s t, 0 <= n <= 99 -> 0 <= p <= 99 ->
    String.compare (sur2 n ++ s) (sur2 p ++ t)
    = match n ?= p with Eq => String.compare s t | c => c end.
Proof.
  intros n p s t Hn Hp. unfold sur2. cbn [append String.compare].
  rewrite !chiffre_compare by (Z.div_mod_to_equations; lia).
  destruct (Z.compare_spec (n / 10) (p / 10)) as [E1|L1|G1];
    [destruct (Z.compare_spec (n mod 10) (p mod 10)) as [E0|L0|G0]| |].
  all: first
    [ replace (n ?= p) with Eq
        by (symmetry; apply Z.compare_eq_iff; Z.div_mod_to_equations; lia)
    | replace (n ?= p) with Lt
        by (symmetry; apply Z.compare_lt_iff; Z.div_mod_to_equations; lia)
    | replace (n ?= p) with Gt
        by (symmetry; apply Z.compare_gt_iff; Z.div_mod_to_equations; lia) ];
    reflexivity.
Qed.

Lemma date_ok_bornes :
  forall d, date_ok d = true ->
    1 <= year d <= 9999 /\ 1 <= month d <= 12 /\ 1 <= day d <= 31.
Proof.
  intros d H. unfold date_ok in H.
  repeat (apply andb_prop in H; destruct H as [H ?]).
  repeat match goal with
         | X : (_ <=? _) = true |- _ => apply Z.leb_le in X
         end.
  lia.
Qed.

(** The texts of two dates compare as the dates do. *)
Lemma isoformat_compare :
  forall d e, date_ok d = true -> date_ok e = true ->
    String.compare (isoformat d) (isoformat e) = date_compare d e.
Proof.
  intros d e Hd He.
  apply date_ok_bornes in Hd. apply date_ok_bornes in He.
  unfold isoformat, date_compare.
  rewrite sur4_compare by lia.
  change ("-" ++ sur2 (month d) ++ "-" ++ sur2 (day d))
    with (String "-" (sur2 (month d) ++ String "-" (sur2 (day d) ++ ""))).
  change ("-" ++ sur2 (month e) ++ "-" ++ sur2 (day e))
    with (String "-" (sur2 (month e) ++ String "-" (sur2 (day e) ++ ""))).
  cbn [String.compare]. change (Ascii.compare "-" "-") with Eq. cbv iota.
  rewrite sur2_compare by lia.
  cbn [String.compare]. change (Ascii.compare "-" "-") with Eq. cbv iota.
  rewrite sur2_compare by lia.
  cbn [String.compare].
  destruct (year d ?= year e); try reflexivity.
  destruct (month d ?= month e); try reflexivity.
  destruct (day d ?= day e); reflexivity.
Qed.

Lemma date_compare_lt :
  forall d e,
    date_compare d e = Lt <->
    year d < year e
    \/ (year d = year e
        /\ (month d < month e \/ (month d = month e /\ day d < day e))).
Proof.
  intros d e. unfold date_compare.
  destruct (Z.compare_spec (year d) (year e));
    destruct (Z.compare_spec (month d) (month e));
    destruct (Z.compare_spec (day d) (day e));
    split; intro; try lia; try discriminate; try reflexivity.
Qed.

Lemma date_ge_trans :
  forall d e f, date_ge d e -> date_ge e f -> date_ge d f.
Proof.
  unfold date_ge. intros d e f H1 H2 H3.
  rewrite date_compare_lt in H1, H2, H3. lia.
Qed.

Lemma date_ge_total :
  forall d e, date_compare d e = Lt -> date_ge e d.
Proof.
  unfold date_ge. intros d e H1 H2. rewrite date_compare_lt in H1, H2. lia.
Qed.

(** ** Listing *)

Section Listing.

Context {num : Type} {M : Montant num}.

Lemma inserer_perm :
  forall (t : transaction num) l, Permutation (inserer t l) (t :: l).
Proof.
  intros t l. induction l as [|u l IH]; simpl; [reflexivity|].
  destruct (text_ltb _ _); [|reflexivity].
  rewrite IH. apply perm_swap.
Qed.

Lemma order_by_date_desc_perm :
  forall l : list (transaction num), Permutation (order_by_date_desc l) l.
Proof.
  induction l as [|t l IH]; simpl; [reflexivity|].
  rewrite inserer_perm. now constructor.
Qed.

Lemma inserer_sorted :
  forall (t : transaction num) l,
    date_ok (date_transaction t) = true ->
    Forall (fun u => date_ok (date_transaction u) = true) l ->
    StronglySorted ordre_date l ->
    StronglySorted ordre_date (inserer t l).
Proof.
  intros t l Ht Hl Hs. induction Hs as [|u l Hs IH Hu]; simpl.
  - constructor; constructor.
  - inversion Hl as [|? ? Hok Hl']; subst.
    unfold text_ltb. rewrite isoformat_compare by assumption.
    destruct (date_compare (date_transaction t) (date_transaction u)) eqn:Hc.
    + constructor; [now constructor|].
      constructor; [unfold ordre_date, date_ge; congruence|].
      eapply Forall_impl; [|exact Hu].
      intros x Hx. unfold ordre_date in *.
      apply date_ge_trans with (e := date_transaction u);
        [unfold date_ge; congruence | exact Hx].
    + constructor; [now apply IH|].
      rewrite inserer_perm. constructor; [|exact Hu].
      now apply date_ge_total.
    + constructor; [now constructor|].
      constructor; [unfold ordre_date, date_ge; congruence|].
      eapply Forall_impl; [|exact Hu].
      intros x Hx. unfold ordre_date in *.
      apply date_ge_trans with (e := date_transaction u);
        [unfold date_ge; congruence | exact Hx].
Qed.

Lemma order_by_date_desc_sorted :
  forall l : list (transaction num),
    Forall (fun u => date_ok (date_transaction u) = true) l ->
    StronglySorted ordre_date (order_by_date_desc l).
Proof.
  induction l as [|t l IH]; intro Hl; simpl; [constructor|].
  inversion Hl as [|? ? Ht Hl']; subst.
  apply inserer_sorted; [assumption| |now apply IH].
  rewrite order_by_date_desc_perm. assumption.
Qed.

(** C10: with a limit of 0, [get_transactions] returns what it returns with
    no limit, which is every stored transaction. *)
Theorem get_transactions_limit_0 :
  forall b : base num,
    get_transactions (Some 0) b = get_transactions None b
    /\ Permutation (get_transactions (Some 0) b) (transactions b).
Proof.
  intro b. split; [reflexivity|].
  unfold get_transactions. simpl. apply order_by_date_desc_perm.
Qed.

(** C7, amended: [get_transactions] lists the stored transactions by date,
    latest first, all of them when no limit is given and the first [n] of
    that list under a limit [n > 0] of 64 bits; it does not order the
    transactions of one date by id. *)
Theorem get_transactions_ordre :
  forall (b : base num) (n : Z),
    Forall (fun t => date_ok (date_transaction t) = true) (transactions b) ->
    0 < n < 2 ^ 63 ->
    Permutation (get_transactions None b) (transactions b)
    /\ StronglySorted ordre_date (get_transactions None b)
    /\ get_transactions (Some n) b = firstn (Z.to_nat n) (get_transactions None b)
    /\ StronglySorted ordre_date (get_transactions (Some n) b).
Proof.
  intros b n Hok Hn.
  assert (Hs : StronglySorted ordre_date (get_transactions None b))
    by (apply order_by_date_desc_sorted; exact Hok).
  assert (Hl : get_transactions (Some n) b
               = firstn (Z.to_nat n) (get_transactions None b)).
  { unfold get_transactions, sql_limit, Py.not_int, Py.int64.
    destruct (Z.eqb_spec n 0) as [E|_]; [lia|].
    destruct (Z.leb_spec (- 2 ^ 63) n); [|lia].
    destruct (Z.ltb_spec n (2 ^ 63)); [|lia].
    destruct (Z.ltb_spec n 0) as [L|_]; [lia|]. reflexivity. }
  repeat split.
  - apply order_by_date_desc_perm.
  - exact Hs.
  - exact Hl.
  - rewrite Hl. clear Hl. revert Hs. generalize (get_transactions None b).
    generalize (Z.to_nat n). clear.
    intros k l. revert k. induction l as [|t l IH]; intros k Hs.
    + destruct k; constructor.
    + destruct k as [|k]; [constructor|]. simpl.
      inversion Hs as [|? ? Hs' Ht]; subst.
      constructor; [now apply IH|].
      rewrite Forall_forall in *. intros x Hx. apply Ht.
      revert Hx. clear. revert k. induction l as [|y l IHl]; intros [|k] Hx;
        simpl in *; try contradiction.
      destruct Hx as [Hx|Hx]; [now left | right; now apply (IHl k)].
Qed.

End Listing.

Lemma get_transactions_ordre_witness :
  Forall (fun t => date_ok (date_transaction t) = true)
    (transactions Scenarios.bC)
  /\ 0 < 2 < 2 ^ 63
  /\ map (@id float) (get_transactions (Some 2) Scenarios.bC) = [3; 2]
  /\ StronglySorted ordre_date (get_transactions (Some 2) Scenarios.bC).
Proof.
  assert (H : Forall (fun t => date_ok (date_transaction t) = true)
                (transactions Scenarios.bC))
    by (repeat constructor).
  split; [exact H|]. split; [lia|]. split; [reflexivity|].
  exact (proj2 (proj2 (proj2
           (get_transactions_ordre Scenarios.bC 2 H ltac:(lia))))).
Defined.

(** Limits on scenario C, which stores three transactions: a negative limit
    is no limit, a limit that is not of 64 bits leaves the listing empty. *)
Example get_transactions_limites :
  List.length (get_transactions (Some (-1)) Scenarios.bC) = 3%nat
  /\ get_transactions (Some (2 ^ 63)) Scenarios.bC = []
  /\ get_transactions (Some (- 2 ^ 63 - 1)) Scenarios.bC = [].
Proof. repeat split. Qed.

(** C7 as stated fails: two transactions recorded on one day are listed in
    the order of their ids, smallest first. *)
Lemma get_transactions_meme_date :
  accessible tous_codes Scenarios.b_01_02
  /\ map (@id float) (get_transactions None Scenarios.b_01_02) = [1; 2]
  /\ ~ StronglySorted ordre_date_id (get_transactions None Scenarios.b_01_02).
Proof.
  split; [|split].
  - unfold Scenarios.b_01_02, Scenarios.b_01, Scenarios.ajouter.
    repeat (apply acc_ajouter; [|exact I]). apply acc_init.
  - reflexivity.
  - intro H. inversion H as [|t l _ Hf Heq]; subst.
    inversion Hf as [|u l' Hu _ Heq']; subst.
    destruct Hu as [Hu|[_ Hu]]; [discriminate Hu|].
    vm_compute in Hu. discriminate Hu.
Qed.

(** ** Validation *)

Lemma lstrip_vide :
  forall s, Py.lstrip s = "" <-> blanche s.
Proof.
  unfold blanche. induction s as [|c s IH]; simpl.
  - split; [constructor | reflexivity].
  - destruct (Py.isspace c) eqn:Hc.
    + rewrite IH. split; intro H; [now constructor | now inversion H].
    + split; intro H; [discriminate | inversion H; congruence].
Qed.

Lemma lstrip_tete :
  forall s c r, Py.lstrip s = String c r -> Py.isspace c = false.
Proof.
  induction s as [|a s IH]; simpl; intros c r H; [discriminate|].
  destruct (Py.isspace a) eqn:Ha; [now apply (IH c r) | congruence].
Qed.

Lemma rstrip_tete :
  forall c r, Py.isspace c = false -> Py.rstrip (String c r) <> "".
Proof.
  intros c r Hc. simpl. destruct (Py.rstrip r); [rewrite Hc|]; discriminate.
Qed.

(** [not description.strip()] holds of the descriptions made of white space
    only, the empty one among them. *)
Lemma strip_vide :
  forall s, Py.not_str (Py.strip s) = true <-> blanche s.
Proof.
  intro s. unfold Py.strip. rewrite <- lstrip_vide.
  destruct (Py.lstrip s) as [|c r] eqn:Hl.
  - simpl. tauto.
  - pose proof (rstrip_tete c r (lstrip_tete _ _ _ Hl)) as Hr.
    destruct (Py.rstrip (String c r)); [congruence|].
    simpl. split; discriminate.
Qed.

Section Validation.

Context {num : Type} {M : Montant num}.

(** C2, amended: the form of [main] checks, in this order, that the two
    accounts differ, that the amount is not [<= 0] and that the description
    is not blank; the first check that fails shows its message and
    [ajouter_transaction] is not called, so the transactions and the balances
    are unchanged, as they are whenever the form does not report success.
    Nothing checks that the codes are in the table of accounts:
    [ajouter_transaction] itself rejects no argument and, unless a statement
    raises, commits its three effects. *)
Theorem main_submitted_validation :
  forall panne d debit credit (m : num) desc type ref resp (b : base num),
    (debit = credit ->
     main_submitted panne d debit credit m desc type ref resp b
     = (Comptes_identiques, b))
    /\ (debit <> credit -> nle0 m = true ->
        main_submitted panne d debit credit m desc type ref resp b
        = (Montant_non_positif, b))
    /\ (debit <> credit -> nle0 m = false -> blanche desc ->
        main_submitted panne d debit credit m desc type ref resp b
        = (Description_obligatoire, b))
    /\ (debit <> credit -> nle0 m = false -> ~ blanche desc -> nnull m = false ->
        main_submitted None d debit credit m desc type ref resp b
        = (Succes Transaction_ajoutee,
           effets_ajout d debit credit m desc type (Some ref) (Some resp) b))
    /\ (forall r b',
          main_submitted panne d debit credit m desc type ref resp b = (r, b') ->
          r <> Succes Transaction_ajoutee -> b' = b)
    /\ (forall ref' resp', nnull m = false ->
          ajouter_transaction None d debit credit m desc type ref' resp' b
          = ((true, Transaction_ajoutee),
             effets_ajout d debit credit m desc type ref' resp' b)).
Proof.
  intros panne d debit credit m desc type ref resp b.
  unfold main_submitted.
  repeat split.
  - intro E. apply String.eqb_eq in E. now rewrite E.
  - intros N L. apply String.eqb_neq in N. now rewrite N, L.
  - intros N L B. apply String.eqb_neq in N. apply strip_vide in B.
    now rewrite N, L, B.
  - intros N L B Hn. apply String.eqb_neq in N.
    rewrite N, L. destruct (Py.not_str (Py.strip desc)) eqn:Hs.
    + exfalso. apply B. now apply strip_vide.
    + rewrite ajouter_transaction_eq, Hn. reflexivity.
  - intros r b'.
    destruct (debit =? credit)%string; [congruence|].
    destruct (nle0 m); [congruence|].
    destruct (Py.not_str (Py.strip desc)); [congruence|].
    rewrite ajouter_transaction_eq.
    destruct (nnull m || _); intros H Hr; inversion H; subst; congruence.
  - intros ref' resp' Hn. rewrite ajouter_transaction_eq, Hn. reflexivity.
Qed.

End Validation.

Lemma main_submitted_validation_witness :
  main_submitted None Scenarios.le_10_janvier "INVEST" "INVEST" 1000%float "x"
    "Investissement" "" "" Scenarios.b0
  = (Comptes_identiques, Scenarios.b0).
Proof.
  exact (proj1 (main_submitted_validation None Scenarios.le_10_janvier
                  "INVEST" "INVEST" 1000%float "x" "Investissement" "" ""
                  Scenarios.b0) eq_refl).
Defined.

(** C2 as stated fails: [ajouter_transaction] with a credit code that is not
    in the table of accounts succeeds, stores the transaction and adds the
    amount to the debit account; so does the form. *)
Lemma ajouter_transaction_code_inconnu :
  solde "XXX" Scenarios.b0 = None
  /\ ajouter_transaction None Scenarios.le_10_janvier "INVEST" "XXX" 1000%float
       "x" "Investissement" None None Scenarios.b0
     = ((true, Transaction_ajoutee), Scenarios.b_inconnu)
  /\ fst (main_submitted None Scenarios.le_10_janvier "INVEST" "XXX" 1000%float
            "x" "Investissement" "" "" Scenarios.b0)
     = Succes Transaction_ajoutee
  /\ transactions Scenarios.b0 = []
  /\ map (@id float) (transactions Scenarios.b_inconnu) = [1]
  /\ solde "INVEST" Scenarios.b0 = Some 0%float
  /\ solde "INVEST" Scenarios.b_inconnu = Some 1000%float.
Proof. repeat split. Qed.

(** ** Recording and reversing *)

Section Aller_retour.

Context {num : Type} {M : Montant num}.

Lemma max_id_ge :
  forall (l : list (transaction num)) t, In t l -> id t <= max_id l.
Proof.
  induction l as [|u l IH]; intros t Ht; simpl in *; [contradiction|].
  destruct Ht as [Ht|Ht]; [subst; lia | specialize (IH t Ht); lia].
Qed.

Lemma prochain_id_frais :
  forall (b : base num) t, In t (transactions b) -> id t <> prochain_id b.
Proof.
  intros b t Ht. apply max_id_ge in Ht. unfold prochain_id. lia.
Qed.

Lemma find_dernier :
  forall (l : list (transaction num)) t,
    (forall u, In u l -> id u <> id t) ->
    find (fun u => id u =? id t) (l ++ [t]) = Some t.
Proof.
  induction l as [|u l IH]; intros t H; simpl.
  - now rewrite Z.eqb_refl.
  - destruct (Z.eqb_spec (id u) (id t)) as [E|_].
    + exfalso. apply (H u); [now left | exact E].
    + apply IH. intros v Hv. apply H. now right.
Qed.

Lemma filter_dernier :
  forall (l : list (transaction num)) t,
    (forall u, In u l -> id u <> id t) ->
    filter (fun u => negb (id u =? id t)) (l ++ [t]) = l.
Proof.
  induction l as [|u l IH]; intros t H; simpl.
  - now rewrite Z.eqb_refl.
  - destruct (Z.eqb_spec (id u) (id t)) as [E|_].
    + exfalso. apply (H u); [now left | exact E].
    + simpl. f_equal. apply IH. intros v Hv. apply H. now right.
Qed.

Lemma maj_solde_maj_solde :
  forall f g code code' (l : list (compte num)),
    maj_solde g code' (maj_solde f code l)
    = map (fun c =>
             let s := if (code_compte c =? code)%string
                      then f (solde_actuel c) else solde_actuel c in
             mkCompte (code_compte c) (nom_compte c) (type_compte c)
               (if (code_compte c =? code')%string then g s else s))
        l.
Proof.
  intros f g code code' l. unfold maj_solde. rewrite map_map.
  apply map_ext. intros [c n t s]. simpl.
  destruct (c =? code)%string; simpl; destruct (c =? code')%string; reflexivity.
Qed.

Lemma maj_solde_id :
  forall f code (l : list (compte num)),
    (forall c, In c l -> code_compte c = code -> f (solde_actuel c) = solde_actuel c) ->
    maj_solde f code l = l.
Proof.
  intros f code l H. unfold maj_solde.
  rewrite <- (map_id l) at 2. apply map_ext_in. intros [c n t s] Hc. simpl.
  destruct (String.eqb_spec c code) as [E|_]; [|reflexivity].
  pose proof (H _ Hc E) as Hf. simpl in Hf. now rewrite Hf.
Qed.

(** The four UPDATEs of a recording followed by its reversal. *)
Lemma maj_solde_aller_retour :
  forall debit credit (m : num) (l : list (compte num)),
    maj_solde (fun s => nadd s m) credit
      (maj_solde (fun s => nsub s m) debit
         (maj_solde (fun s => nsub s m) credit
            (maj_solde (fun s => nadd s m) debit l)))
    = maj_solde (fun s => nadd (nsub s m) m) credit
        (maj_solde (fun s => nsub (nadd s m) m) debit l).
Proof.
  intros debit credit m l.
  rewrite !maj_solde_maj_solde. unfold maj_solde. rewrite map_map.
  apply map_ext. intros [c n t s]. simpl.
  destruct (c =? debit)%string; destruct (c =? credit)%string; reflexivity.
Qed.

(** C4, amended: a successful recording followed by the reversal of the
    transaction it stored (the one under the id the recording assigned)
    leaves the stored transactions, hence their listing, as they were before
    the recording, and a balance [s] at [(s + m) - m] on the debit account,
    at [(s - m) + m] on the credit account, untouched elsewhere: every
    balance is back at its value before the recording when these two
    computations are exact on the balances of the two accounts, as they are
    not for all binary64 amounts. *)
Theorem aller_retour :
  forall d debit credit (m : num) desc type ref resp (b : base num),
    nnull m = false ->
    let r1 := ajouter_transaction None d debit credit m desc type ref resp b in
    let r2 := supprimer_transaction None (sqlite_sequence (snd r1)) (snd r1) in
    fst r1 = (true, Transaction_ajoutee)
    /\ In (sqlite_sequence (snd r1)) (map (@id num) (transactions (snd r1)))
    /\ fst r2 = (true, Transaction_supprimee)
    /\ transactions (snd r2) = transactions b
    /\ get_transactions None (snd r2) = get_transactions None b
    /\ ~ In (sqlite_sequence (snd r1))
         (map (@id num) (get_transactions None (snd r2)))
    /\ comptes (snd r2)
       = maj_solde (fun s => nadd (nsub s m) m) credit
           (maj_solde (fun s => nsub (nadd s m) m) debit (comptes b))
    /\ ((forall c, In c (comptes b) -> code_compte c = debit ->
           nsub (nadd (solde_actuel c) m) m = solde_actuel c) ->
        (forall c, In c (comptes b) -> code_compte c = credit ->
           nadd (nsub (solde_actuel c) m) m = solde_actuel c) ->
        comptes (snd r2) = comptes b).
Proof.
  intros d debit credit m desc type ref resp b Hn r1 r2.
  assert (E1 : r1 = ((true, Transaction_ajoutee),
                     effets_ajout d debit credit m desc type ref resp b)).
  { unfold r1. rewrite ajouter_transaction_eq, Hn. reflexivity. }
  set (t := mkTransaction (prochain_id b) d debit credit m desc type ref resp).
  assert (Hfrais : forall u, In u (transactions b) -> id u <> id t)
    by (intros u Hu; simpl; now apply prochain_id_frais).
  assert (E2 : r2 = ((true, Transaction_supprimee),
                     mkBase (transactions b)
                       (maj_solde (fun s => nadd (nsub s m) m) credit
                          (maj_solde (fun s => nsub (nadd s m) m) debit (comptes b)))
                       (prochain_id b))).
  { unfold r2. rewrite E1. simpl snd.
    rewrite supprimer_transaction_eq. unfold effets_ajout. simpl.
    fold t. change (prochain_id b) with (id t) at 1 2.
    rewrite (find_dernier _ _ Hfrais), (filter_dernier _ _ Hfrais). simpl.
    now rewrite maj_solde_aller_retour. }
  assert (Hl : ~ In (prochain_id b) (map (@id num) (transactions b))).
  { intro H. apply in_map_iff in H. destruct H as [u [Eu Hu]].
    now apply (prochain_id_frais b u Hu). }
  rewrite E1, E2. simpl.
  repeat split.
  - rewrite map_app, in_app_iff. right. now left.
  - intro H. apply Hl.
    eapply Permutation_in; [|exact H].
    apply Permutation_map. unfold get_transactions. simpl.
    apply order_by_date_desc_perm.
  - intros Hd Hc. rewrite (maj_solde_id _ _ _ Hd). now apply maj_solde_id.
Qed.

End Aller_retour.

Lemma aller_retour_witness :
  nnull 1000%float = false
  /\ comptes (snd (supprimer_transaction None 1 Scenarios.bA))
     = comptes Scenarios.b0.
Proof.
  split; [reflexivity|].
  refine (proj2 (proj2 (proj2 (proj2 (proj2 (proj2 (proj2
            (aller_retour Scenarios.le_10_janvier "INVEST" "RECETTES"
               1000%float "x" "Investissement" None None Scenarios.b0
               eq_refl))))))) _ _).
  - intros c Hc _. simpl in Hc.
    repeat (destruct Hc as [Hc|Hc]; [subst c; reflexivity|]). contradiction.
  - intros c Hc _. simpl in Hc.
    repeat (destruct Hc as [Hc|Hc]; [subst c; reflexivity|]). contradiction.
Defined.

(** ** Reachable databases *)

Section Accessibles.

Context {num : Type} {M : Montant num}.

(** To show a property of every reachable database it is enough to show it
    of the initial one and to carry it over the committed effects of a
    recording and of the reversal of a stored transaction: a call that does
    not commit leaves the database as it was. *)
Lemma accessible_effets :
  forall (codes_ok : string -> string -> Prop) (P : base num -> Prop),
    P (init_database base_vide) ->
    (forall b d debit credit m desc type ref resp,
        accessible codes_ok b -> P b -> codes_ok debit credit ->
        P (effets_ajout d debit credit m desc type ref resp b)) ->
    (forall b t,
        accessible codes_ok b -> P b -> In t (transactions b) ->
        P (effets_suppression t b)) ->
    forall b, accessible codes_ok b -> P b.
Proof.
  intros codes_ok P Hinit Haj Hsup b Hb.
  induction Hb as [|b panne d debit credit m desc type ref resp Hb IH Hc
                   |b panne tid Hb IH].
  - exact Hinit.
  - rewrite ajouter_transaction_eq.
    destruct (nnull m || _); simpl; [exact IH | now apply Haj].
  - rewrite supprimer_transaction_eq.
    destruct (find (fun t => id t =? tid) (transactions b)) as [t|] eqn:Hf.
    + destruct (find_id_some _ _ _ Hf) as [Hin Hid]. subst tid.
      fold (effets_suppression t b).
      destruct panne as [[|k]|];
        [exact IH
        |destruct (S k <? 5)%nat; [exact IH | now apply Hsup]
        |now apply Hsup].
    + destruct panne as [[|k]|]; exact IH.
Qed.

(** The ids of the stored transactions are pairwise distinct. *)
Lemma accessible_ids :
  forall codes_ok (b : base num),
    accessible codes_ok b -> NoDup (map (@id num) (transactions b)).
Proof.
  intros codes_ok. apply accessible_effets.
  - constructor.
  - intros b d debit credit m desc type ref resp _ Hb _. simpl.
    rewrite map_app. simpl.
    apply Permutation_NoDup with (l := prochain_id b :: map (@id num) (transactions b)).
    + apply Permutation_cons_append.
    + constructor; [|exact Hb].
      intro H. apply in_map_iff in H. destruct H as [u [Eu Hu]].
      now apply (prochain_id_frais b u Hu).
  - intros b t _ Hb _. simpl.
    induction (transactions b) as [|u l IH]; simpl; [constructor|].
    inversion Hb as [|? ? Hu Hl]; subst.
    destruct (negb (id u =? id t)); simpl; [|now apply IH].
    constructor; [|now apply IH].
    intro H. apply Hu. apply in_map_iff in H. destruct H as [v [Ev Hv]].
    apply filter_In in Hv. apply in_map_iff. exists v. tauto.
Qed.

(** The table of accounts keeps the codes of its rows. *)
Lemma maj_solde_codes :
  forall f code (l : list (compte num)),
    map (@code_compte num) (maj_solde f code l) = map (@code_compte num) l.
Proof.
  intros f code l. unfold maj_solde. rewrite map_map. apply map_ext.
  intro c. destruct (code_compte c =? code)%string; reflexivity.
Qed.

Lemma accessible_codes :
  forall codes_ok (b : base num),
    accessible codes_ok b ->
    map (@code_compte num) (comptes b) = codes_principaux.
Proof.
  intros codes_ok. apply accessible_effets.
  - reflexivity.
  - intros b d debit credit m desc type ref resp _ Hb _. simpl.
    now rewrite !maj_solde_codes.
  - intros b t _ Hb _. simpl. now rewrite !maj_solde_codes.
Qed.

(** The stored transactions name the codes that the calls were made
    with. *)
Lemma accessible_codes_transactions :
  forall (b : base num),
    accessible codes_connus b ->
    forall t, In t (transactions b) ->
      codes_connus (compte_debit t) (compte_credit t).
Proof.
  apply (accessible_effets codes_connus
           (fun b => forall t, In t (transactions b) ->
                       codes_connus (compte_debit t) (compte_credit t))).
  - intros t [].
  - intros b d debit credit m desc type ref resp _ IH Hk t Hin.
    simpl in Hin. apply in_app_or in Hin. destruct Hin as [Hin|[Hin|[]]].
    + now apply IH.
    + subst t. exact Hk.
  - intros b t _ IH _ u Hu. simpl in Hu. apply filter_In in Hu.
    now apply IH.
Qed.

End Accessibles.

(** ** Balances in runs that do not round *)

Section Comptes_et_lignes.

Context {num : Type} {M : Montant num}.

Lemma codes_principaux_NoDup : NoDup codes_principaux.
Proof.
  unfold codes_principaux. simpl.
  repeat (constructor; [simpl; intuition discriminate|]). constructor.
Qed.

Lemma filter_autres_ids :
  forall (l : list (transaction num)) (t : transaction num),
    ~ In (id t) (map (@id num) l) ->
    filter (fun u => negb (id u =? id t)) l = l.
Proof.
  induction l as [|u l IH]; intros t H; simpl in *; [reflexivity|].
  destruct (Z.eqb_spec (id u) (id t)) as [Eu|_]; [tauto|].
  simpl. f_equal. apply IH. tauto.
Qed.

Lemma In_maj_solde_maj_solde :
  forall f g code code' (l : list (compte num)) c',
    In c' (maj_solde g code' (maj_solde f code l)) ->
    exists c, In c l /\ code_compte c' = code_compte c
              /\ solde_actuel c'
                 = let s := if (code_compte c =? code)%string
                            then f (solde_actuel c) else solde_actuel c in
                   if (code_compte c =? code')%string then g s else s.
Proof.
  intros f g code code' l c' H. rewrite maj_solde_maj_solde in H.
  apply in_map_iff in H. destruct H as [c [Ec Hc]].
  exists c. subst c'. simpl. now repeat split.
Qed.

End Comptes_et_lignes.

Section Exact.

Context {num : Type} {M : Montant num} {V : Valeur num}.

Lemma addition_exacte_vrai :
  forall s m : num,
    addition_exacte s m = true ->
    fini m = true /\ fini (nadd s m) = true
    /\ valeur (nadd s m) = valeur s + valeur m.
Proof.
  intros s m H. unfold addition_exacte in H.
  apply andb_prop in H. destruct H as [H H3].
  apply andb_prop in H. destruct H as [H1 H2].
  apply Z.eqb_eq in H3. auto.
Qed.

Lemma soustraction_exacte_vrai :
  forall s m : num,
    soustraction_exacte s m = true ->
    fini m = true /\ fini (nsub s m) = true
    /\ valeur (nsub s m) = valeur s - valeur m.
Proof.
  intros s m H. unfold soustraction_exacte in H.
  apply andb_prop in H. destruct H as [H H3].
  apply andb_prop in H. destruct H as [H1 H2].
  apply Z.eqb_eq in H3. auto.
Qed.

Lemma maj_exacte_vrai :
  forall exacte code (l : list (compte num)) c,
    maj_exacte exacte code l = true ->
    In c l -> code_compte c = code -> exacte (solde_actuel c) = true.
Proof.
  intros exacte code l c H Hc Ec. unfold maj_exacte in H.
  rewrite forallb_forall in H. specialize (H c Hc).
  apply String.eqb_eq in Ec. now rewrite Ec in H.
Qed.

(** A run without rounding is a run. *)
Lemma accessible_exact_accessible :
  forall codes_ok (b : base num),
    accessible_exact codes_ok b -> accessible codes_ok b.
Proof.
  intros codes_ok b H.
  induction H; [apply acc_init | now apply acc_ajouter | now apply acc_supprimer].
Qed.

(** The induction of [accessible_effets] on the runs without rounding: the
    committed UPDATEs are exact. *)
Lemma accessible_exact_effets :
  forall (codes_ok : string -> string -> Prop) (P : base num -> Prop),
    P (init_database base_vide) ->
    (forall b d debit credit m desc type ref resp,
        accessible codes_ok b -> P b -> codes_ok debit credit ->
        ajout_exact debit credit m b = true ->
        P (effets_ajout d debit credit m desc type ref resp b)) ->
    (forall b t,
        accessible codes_ok b -> P b -> In t (transactions b) ->
        suppression_exacte t b = true ->
        P (effets_suppression t b)) ->
    forall b, accessible_exact codes_ok b -> P b.
Proof.
  intros codes_ok P Hinit Haj Hsup b Hb.
  induction Hb as [|b panne d debit credit m desc type ref resp Hb IH Hc He
                   |b panne tid Hb IH He].
  - exact Hinit.
  - apply accessible_exact_accessible in Hb.
    rewrite ajouter_transaction_eq in *.
    destruct (nnull m || _); simpl in *; [exact IH|].
    apply Haj; auto.
  - apply accessible_exact_accessible in Hb.
    rewrite supprimer_transaction_eq in *.
    destruct (find (fun t => id t =? tid) (transactions b)) as [t|] eqn:Hf.
    + destruct (find_id_some _ _ _ Hf) as [Hin Hid]. subst tid.
      fold (effets_suppression t b) in *.
      destruct panne as [[|k]|];
        [exact IH
        |destruct (S k <? 5)%nat; [exact IH | apply Hsup; auto]
        |apply Hsup; auto].
    + destruct panne as [[|k]|]; exact IH.
Qed.

(** *** Sums of values *)

Lemma somme_valeurs_app :
  forall l l' : list num,
    somme_valeurs (l ++ l') = somme_valeurs l + somme_valeurs l'.
Proof.
  intros l l'. induction l as [|x l IH]; simpl; [reflexivity|].
  rewrite IH. lia.
Qed.

Lemma somme_valeurs_perm :
  forall l l' : list num,
    Permutation l l' -> somme_valeurs l = somme_valeurs l'.
Proof.
  intros l l' H. induction H; simpl; lia.
Qed.

(** The additions of [somme] give the sum of the values when none of them
    rounds. *)
Lemma fold_left_nadd_exact :
  forall (l : list num) (acc : num),
    fini acc = true ->
    additions_exactes acc l = true ->
    fini (fold_left nadd l acc) = true
    /\ valeur (fold_left nadd l acc) = valeur acc + somme_valeurs l.
Proof.
  induction l as [|x l IH]; intros acc Hacc H; simpl in *.
  - split; [exact Hacc | lia].
  - apply andb_prop in H. destruct H as [Hx Hl].
    apply addition_exacte_vrai in Hx. destruct Hx as [_ [Hf Hv]].
    destruct (IH _ Hf Hl) as [IHf IHv]. split; [exact IHf|].
    rewrite IHv, Hv. lia.
Qed.

Lemma somme_exacte :
  forall l : list num,
    additions_exactes nzero l = true ->
    fini (somme l) = true /\ valeur (somme l) = somme_valeurs l.
Proof.
  intros l H. unfold somme.
  destruct (fold_left_nadd_exact l nzero fini_nzero H) as [Hf Hv].
  split; [exact Hf|]. rewrite Hv, valeur_nzero. lia.
Qed.

(** *** The sum of the balances *)

(** An exact UPDATE of the balance of a code of the table moves the sum of
    the balances by what it moves the balance. *)
Lemma somme_valeurs_maj_solde :
  forall (f : num -> num) (exacte : num -> bool) (delta : Z) code
    (l : list (compte num)),
    (forall s, exacte s = true ->
               fini (f s) = true /\ valeur (f s) = valeur s + delta) ->
    NoDup (map (@code_compte num) l) ->
    In code (map (@code_compte num) l) ->
    maj_exacte exacte code l = true ->
    Forall (fun c => fini (solde_actuel c) = true) l ->
    Forall (fun c => fini (solde_actuel c) = true) (maj_solde f code l)
    /\ somme_valeurs (map (@solde_actuel num) (maj_solde f code l))
       = somme_valeurs (map (@solde_actuel num) l) + delta.
Proof.
  intros f exacte delta code l Hex.
  induction l as [|c l IH]; intros Hnd Hin He Hf; [contradiction|].
  simpl in Hnd. inversion Hnd as [|? ? Hc Hl]; subst.
  inversion Hf as [|? ? Hfc Hfl]; subst.
  simpl in He. apply andb_prop in He. destruct He as [Hec Hel].
  simpl. fold (maj_solde f code l).
  destruct (String.eqb_spec (code_compte c) code) as [Ec|Nc]; simpl in *.
  - destruct (Hex _ Hec) as [Hfs Hvs].
    rewrite maj_solde_id.
    + split; [constructor; assumption | lia].
    + intros c' Hc' Ec'. exfalso. apply Hc. rewrite Ec, <- Ec'. now apply in_map.
  - destruct Hin as [Hin|Hin]; [contradiction|].
    destruct (IH Hl Hin Hel Hfl) as [IHf IHv].
    split; [constructor; assumption | lia].
Qed.

(** In a run without rounding among the accounts of the chart, every balance
    is finite and the values of the balances sum to 0. *)
Lemma accessible_exact_equilibre :
  forall b : base num,
    accessible_exact codes_connus b ->
    Forall (fun c => fini (solde_actuel c) = true) (comptes b)
    /\ somme_valeurs (map (@solde_actuel num) (comptes b)) = 0.
Proof.
  apply accessible_exact_effets.
  - simpl. rewrite valeur_nzero. split; [|reflexivity].
    repeat constructor; apply fini_nzero.
  - intros b d debit credit m desc type ref resp Hb [Hf Hs] [Hd Hcr] He.
    pose proof (accessible_codes _ _ Hb) as Hc.
    unfold ajout_exact in He. apply andb_prop in He. destruct He as [He1 He2].
    simpl.
    destruct (somme_valeurs_maj_solde (fun s => nadd s m)
                (fun s => addition_exacte s m) (valeur m) debit (comptes b))
      as [Hf1 Hs1]; auto.
    { intros s H. apply addition_exacte_vrai in H. tauto. }
    { rewrite Hc. apply codes_principaux_NoDup. }
    { now rewrite Hc. }
    destruct (somme_valeurs_maj_solde (fun s => nsub s m)
                (fun s => soustraction_exacte s m) (- valeur m) credit
                (maj_solde (fun s => nadd s m) debit (comptes b)))
      as [Hf2 Hs2]; auto.
    { intros s H. apply soustraction_exacte_vrai in H.
      split; [tauto | lia]. }
    { rewrite maj_solde_codes, Hc. apply codes_principaux_NoDup. }
    { now rewrite maj_solde_codes, Hc. }
    split; [exact Hf2 | lia].
  - intros b t Hb [Hf Hs] Hin He.
    pose proof (accessible_codes _ _ Hb) as Hc.
    destruct (accessible_codes_transactions _ Hb t Hin) as [Hd Hcr].
    unfold suppression_exacte in He. apply andb_prop in He.
    destruct He as [He1 He2]. simpl.
    destruct (somme_valeurs_maj_solde (fun s => nsub s (montant t))
                (fun s => soustraction_exacte s (montant t))
                (- valeur (montant t)) (compte_debit t) (comptes b))
      as [Hf1 Hs1]; auto.
    { intros s H. apply soustraction_exacte_vrai in H.
      split; [tauto | lia]. }
    { rewrite Hc. apply codes_principaux_NoDup. }
    { now rewrite Hc. }
    destruct (somme_valeurs_maj_solde (fun s => nadd s (montant t))
                (fun s => addition_exacte s (montant t))
                (valeur (montant t)) (compte_credit t)
                (maj_solde (fun s => nsub s (montant t)) (compte_debit t)
                   (comptes b)))
      as [Hf2 Hs2]; auto.
    { intros s H. apply addition_exacte_vrai in H. tauto. }
    { rewrite maj_solde_codes, Hc. apply codes_principaux_NoDup. }
    { now rewrite maj_solde_codes, Hc. }
    split; [exact Hf2 | lia].
Qed.

(** *** The balance of an account and its transactions *)

Lemma somme_valeurs_filter_dernier :
  forall (p : transaction num -> bool) (l : list (transaction num)) t,
    somme_valeurs (map (@montant num) (filter p (l ++ [t])))
    = somme_valeurs (map (@montant num) (filter p l))
      + (if p t then valeur (montant t) else 0).
Proof.
  intros p l t. rewrite filter_app, map_app, somme_valeurs_app. simpl.
  destruct (p t); simpl; lia.
Qed.

(** Deleting a stored transaction takes the value of its amount out of the
    sums it counts in. *)
Lemma somme_valeurs_filter_retire :
  forall (p : transaction num -> bool) (l : list (transaction num)) t,
    NoDup (map (@id num) l) ->
    In t l ->
    somme_valeurs (map (@montant num) (filter p l))
    = somme_valeurs
        (map (@montant num) (filter p (filter (fun u => negb (id u =? id t)) l)))
      + (if p t then valeur (montant t) else 0).
Proof.
  intros p l t. induction l as [|u l IH]; intros Hnd Hin; [contradiction|].
  simpl in Hnd. inversion Hnd as [|? ? Hu Hl]; subst.
  destruct Hin as [Hin|Hin].
  - subst u. simpl. rewrite Z.eqb_refl. simpl.
    rewrite (filter_autres_ids _ _ Hu).
    destruct (p t); simpl; lia.
  - simpl. destruct (Z.eqb_spec (id u) (id t)) as [Eu|Nu].
    + exfalso. apply Hu. rewrite Eu. now apply in_map.
    + simpl. specialize (IH Hl Hin).
      destruct (p u); simpl; lia.
Qed.

(** Two exact UPDATEs one after the other, on a row of the table. *)
Lemma deux_maj_exactes :
  forall (f g : num -> num) (ef eg : num -> bool) (df dg : Z) code code'
    (l : list (compte num)) c,
    (forall s, ef s = true -> fini (f s) = true /\ valeur (f s) = valeur s + df) ->
    (forall s, eg s = true -> fini (g s) = true /\ valeur (g s) = valeur s + dg) ->
    maj_exacte ef code l = true ->
    maj_exacte eg code' (maj_solde f code l) = true ->
    In c l ->
    fini (solde_actuel c) = true ->
    let s1 := if (code_compte c =? code)%string
              then f (solde_actuel c) else solde_actuel c in
    let s2 := if (code_compte c =? code')%string then g s1 else s1 in
    fini s2 = true
    /\ valeur s2
       = valeur (solde_actuel c)
         + (if (code_compte c =? code)%string then df else 0)
         + (if (code_compte c =? code')%string then dg else 0)
    /\ (code_compte c = code -> ef (solde_actuel c) = true)
    /\ (code_compte c = code' -> eg s1 = true).
Proof.
  intros f g ef eg df dg code code' l c Hf Hg He1 He2 Hc Hfc s1 s2.
  assert (H1 : code_compte c = code -> ef (solde_actuel c) = true)
    by (intro E; exact (maj_exacte_vrai _ _ _ c He1 Hc E)).
  assert (H2 : code_compte c = code' -> eg s1 = true).
  { intro E.
    apply (maj_exacte_vrai _ code' (maj_solde f code l)
             (if (code_compte c =? code)%string
              then mkCompte (code_compte c) (nom_compte c) (type_compte c)
                     (f (solde_actuel c))
              else c)) in He2.
    - subst s1. destruct (code_compte c =? code)%string; exact He2.
    - unfold maj_solde. apply in_map_iff. exists c. now split.
    - destruct (code_compte c =? code)%string; exact E. }
  assert (K1 : fini s1 = true
               /\ valeur s1 = valeur (solde_actuel c)
                              + (if (code_compte c =? code)%string then df else 0)).
  { subst s1. destruct (String.eqb_spec (code_compte c) code) as [E|_].
    - destruct (Hf _ (H1 E)) as [A B]. split; [exact A | lia].
    - split; [exact Hfc | lia]. }
  destruct K1 as [K1f K1v].
  split; [|split; [|split; assumption]].
  - subst s2. destruct (String.eqb_spec (code_compte c) code') as [E|_];
      [exact (proj1 (Hg _ (H2 E))) | exact K1f].
  - subst s2. destruct (String.eqb_spec (code_compte c) code') as [E|_].
    + destruct (Hg _ (H2 E)) as [_ B]. lia.
    + lia.
Qed.

(** In a run without rounding every row of the table of accounts is as the
    stored transactions say. *)
Lemma accessible_exact_soldes :
  forall b : base num,
    accessible_exact tous_codes b ->
    forall c, In c (comptes b) -> solde_exact b c.
Proof.
  apply (accessible_exact_effets tous_codes
           (fun b => forall c, In c (comptes b) -> solde_exact b c)).
  - intros c Hc. simpl in Hc. unfold solde_exact, valeur_debit, valeur_credit.
    repeat (destruct Hc as [Hc|Hc];
            [subst c; simpl; rewrite valeur_nzero;
             split; [apply fini_nzero | split; [intros t [] | reflexivity]]|]).
    contradiction.
  - intros b d debit credit m desc type ref resp _ IH _ He c' Hc'.
    simpl in Hc'.
    unfold ajout_exact in He. apply andb_prop in He. destruct He as [He1 He2].
    rewrite maj_solde_maj_solde in Hc'. apply in_map_iff in Hc'.
    destruct Hc' as [c [Ec Hc]].
    destruct (IH c Hc) as [Hf [Hm Hv]].
    destruct (deux_maj_exactes (fun s => nadd s m) (fun s => nsub s m)
                (fun s => addition_exacte s m) (fun s => soustraction_exacte s m)
                (valeur m) (- valeur m) debit credit (comptes b) c)
      as [Kf [Kv [K1 K2]]]; auto.
    { intros s H. apply addition_exacte_vrai in H. tauto. }
    { intros s H. apply soustraction_exacte_vrai in H. split; [tauto | lia]. }
    cbv zeta in Kf, Kv, K2.
    subst c'. unfold solde_exact, valeur_debit, valeur_credit in *. simpl.
    split; [exact Kf|]. split.
    + intros t Ht Hcode. apply in_app_or in Ht. destruct Ht as [Ht|[Ht|[]]].
      * now apply Hm.
      * subst t. simpl in *. destruct Hcode as [E|E].
        -- exact (proj1 (addition_exacte_vrai _ _ (K1 (eq_sym E)))).
        -- exact (proj1 (soustraction_exacte_vrai _ _ (K2 (eq_sym E)))).
    + rewrite Kv, !somme_valeurs_filter_dernier. simpl.
      rewrite (String.eqb_sym debit), (String.eqb_sym credit).
      destruct (code_compte c =? debit)%string;
        destruct (code_compte c =? credit)%string; lia.
  - intros b t Hb IH Ht He c' Hc'.
    simpl in Hc'.
    unfold suppression_exacte in He. apply andb_prop in He.
    destruct He as [He1 He2].
    rewrite maj_solde_maj_solde in Hc'. apply in_map_iff in Hc'.
    destruct Hc' as [c [Ec Hc]].
    destruct (IH c Hc) as [Hf [Hm Hv]].
    pose proof (accessible_ids _ _ Hb) as Hnd.
    destruct (deux_maj_exactes (fun s => nsub s (montant t))
                (fun s => nadd s (montant t))
                (fun s => soustraction_exacte s (montant t))
                (fun s => addition_exacte s (montant t))
                (- valeur (montant t)) (valeur (montant t))
                (compte_debit t) (compte_credit t) (comptes b) c)
      as [Kf [Kv _]]; auto.
    { intros s H. apply soustraction_exacte_vrai in H. split; [tauto | lia]. }
    { intros s H. apply addition_exacte_vrai in H. tauto. }
    cbv zeta in Kf, Kv.
    subst c'. unfold solde_exact, valeur_debit, valeur_credit in *. simpl.
    split; [exact Kf|]. split.
    + intros u Hu Hcode. apply filter_In in Hu. now apply Hm.
    + rewrite (somme_valeurs_filter_retire
                 (fun u => (compte_debit u =? code_compte c)%string) _ _ Hnd Ht),
              (somme_valeurs_filter_retire
                 (fun u => (compte_credit u =? code_compte c)%string) _ _ Hnd Ht)
        in Hv.
      rewrite Kv.
      rewrite (String.eqb_sym (compte_debit t)),
              (String.eqb_sym (compte_credit t)) in Hv.
      destruct (code_compte c =? compte_debit t)%string;
        destruct (code_compte c =? compte_credit t)%string; lia.
Qed.

End Exact.

(** *** On binary64 *)

(** A finite binary64 number of value 0 is 0 or -0. *)
Lemma valeur_float_nulle :
  forall x : float,
    fini_float x = true -> valeur_float x = 0 -> PrimFloat.eqb x 0 = true.
Proof.
  intros x Hf Hv. unfold fini_float, valeur_float in *.
  destruct (Prim2SF x) as [sg|sg| |sg m e] eqn:E; try discriminate.
  - rewrite <- (SF2Prim_Prim2SF x), E. destruct sg; reflexivity.
  - exfalso. apply Z.leb_le in Hf.
    assert (0 < 2 ^ (e + 1074)) by (apply Z.pow_pos_nonneg; lia).
    cbv zeta in Hv. destruct sg; nia.
Qed.

(** C1, amended: in every database reached from the initialised one by calls
    of [ajouter_transaction] that name two codes of the chart of accounts and
    by calls of [supprimer_transaction], whatever faults occur, if no UPDATE
    of a balance rounded, every balance is a finite number and the balances
    sum to 0 exactly; the sum that binary64 computes of them is 0 if its
    additions do not round either. *)
Theorem somme_soldes_nulle :
  forall b : base float,
    accessible_exact codes_connus b ->
    Forall (fun c => fini (solde_actuel c) = true) (comptes b)
    /\ somme_valeurs (map (@solde_actuel float) (comptes b)) = 0
    /\ (additions_exactes nzero (map (@solde_actuel float) (comptes b)) = true ->
        PrimFloat.eqb (somme_soldes b) 0 = true).
Proof.
  intros b Hb.
  destruct (accessible_exact_equilibre b Hb) as [Hf Hs].
  split; [exact Hf|]. split; [exact Hs|].
  intro Ha. destruct (somme_exacte _ Ha) as [Hfs Hvs].
  apply valeur_float_nulle; [exact Hfs|].
  unfold somme_soldes. simpl in *. now rewrite Hvs.
Qed.

(** C5, amended: in every database reached from the initialised one by calls
    of [ajouter_transaction] and [supprimer_transaction], whatever their
    arguments and whatever faults occur, if no UPDATE of a balance rounded,
    the balance of each account is a finite number, and so are the amounts
    of the stored transactions on the account, and it equals exactly the sum
    of the amounts of the stored transactions that debit the account minus
    the sum of the amounts of those that credit it; it has the value of
    what binary64 computes of these sums and of their difference if these
    computations do not round either. *)
Theorem solde_selon_transactions :
  forall (b : base float) (code : string) (s : float),
    accessible_exact tous_codes b ->
    solde code b = Some s ->
    fini s = true
    /\ (forall t, In t (transactions b) ->
          compte_debit t = code \/ compte_credit t = code ->
          fini (montant t) = true)
    /\ valeur s = valeur_debit code b - valeur_credit code b
    /\ (additions_exactes nzero
          (map (@montant float)
             (filter (fun t => (compte_debit t =? code)%string) (transactions b)))
        = true ->
        additions_exactes nzero
          (map (@montant float)
             (filter (fun t => (compte_credit t =? code)%string) (transactions b)))
        = true ->
        soustraction_exacte (total_debit code b) (total_credit code b) = true ->
        valeur s = valeur (nsub (total_debit code b) (total_credit code b))).
Proof.
  intros b code s Hb Hs. unfold solde in Hs.
  destruct (find (fun c => (code_compte c =? code)%string) (comptes b))
    as [c|] eqn:Hc; [|discriminate].
  apply find_some in Hc. destruct Hc as [Hin Hcode].
  apply String.eqb_eq in Hcode. injection Hs as Hs. subst s.
  destruct (accessible_exact_soldes b Hb c Hin) as [Hf [Hm Hv]].
  rewrite Hcode in *.
  split; [exact Hf|]. split; [exact Hm|]. split; [exact Hv|].
  intros Hd Hcr Hsub.
  apply somme_exacte in Hd, Hcr. apply soustraction_exacte_vrai in Hsub.
  destruct Hd as [_ Hd]. destruct Hcr as [_ Hcr]. destruct Hsub as [_ [_ Hsub]].
  unfold total_debit, total_credit in *.
  rewrite Hsub, Hd, Hcr. exact Hv.
Qed.

(** ** Runs on binary64 amounts *)

Ltac accessible_par_calcul :=
  repeat first
    [ apply acc_init
    | apply acc_supprimer
    | apply acc_ajouter; [|first [exact I | split; simpl; tauto]] ].

Lemma float_distinct :
  forall x y : float, PrimFloat.eqb y y = true -> PrimFloat.eqb x y = false -> x <> y.
Proof. intros x y Hy Hxy E. rewrite E in Hxy. congruence. Qed.

Ltac accessible_exact_par_calcul :=
  repeat first
    [ apply acce_init
    | apply acce_supprimer;
      [|let t := fresh "t" in
        let Hf := fresh "Hf" in
        intros t _ Hf; vm_compute in Hf; injection Hf as <-;
        vm_compute; reflexivity]
    | apply acce_ajouter;
      [|first [exact I | split; simpl; tauto]
       |intros _; vm_compute; reflexivity] ].

Lemma somme_soldes_nulle_witness :
  accessible_exact codes_connus Scenarios.bC
  /\ map (@solde_actuel float) (comptes Scenarios.bC)
     = [0; 1200; 0; 300; -1500]%float
  /\ additions_exactes nzero (map (@solde_actuel float) (comptes Scenarios.bC))
     = true
  /\ PrimFloat.eqb (somme_soldes Scenarios.bC) 0 = true.
Proof.
  assert (H : accessible_exact codes_connus Scenarios.bC)
    by (unfold Scenarios.bC, Scenarios.ajouter; accessible_exact_par_calcul).
  assert (Ha : additions_exactes nzero
                 (map (@solde_actuel float) (comptes Scenarios.bC)) = true)
    by (vm_compute; reflexivity).
  split; [exact H|]. split; [reflexivity|]. split; [exact Ha|].
  exact (proj2 (proj2 (somme_soldes_nulle Scenarios.bC H)) Ha).
Defined.

Lemma solde_selon_transactions_witness :
  accessible_exact tous_codes Scenarios.bC
  /\ solde "RECETTES" Scenarios.bC = Some (-1500)%float
  /\ total_debit "RECETTES" Scenarios.bC = 0%float
  /\ total_credit "RECETTES" Scenarios.bC = 1500%float
  /\ valeur (-1500)%float
     = valeur_debit "RECETTES" Scenarios.bC
       - valeur_credit "RECETTES" Scenarios.bC
  /\ valeur (-1500)%float
     = valeur (nsub (total_debit "RECETTES" Scenarios.bC)
                 (total_credit "RECETTES" Scenarios.bC)).
Proof.
  assert (H : accessible_exact tous_codes Scenarios.bC)
    by (unfold Scenarios.bC, Scenarios.ajouter; accessible_exact_par_calcul).
  assert (Hs : solde "RECETTES" Scenarios.bC = Some (-1500)%float)
    by reflexivity.
  pose proof (solde_selon_transactions Scenarios.bC "RECETTES" (-1500)%float
                H Hs) as [_ [_ [Hv Hc]]].
  split; [exact H|]. split; [exact Hs|].
  split; [reflexivity|]. split; [reflexivity|]. split; [exact Hv|].
  apply Hc; vm_compute; reflexivity.
Defined.

(** The scenarios A, B and C of the specification. *)
Example scenario_A :
  solde "INVEST" Scenarios.bA = Some 1000%float
  /\ solde "RECETTES" Scenarios.bA = Some (-1000)%float
  /\ somme_soldes Scenarios.bA = 0%float.
Proof. repeat split. Qed.

Example scenario_B :
  map (fun c => (code_compte c, solde_actuel c)) (comptes Scenarios.bB)
  = [("INVEST", 0); ("SYS_BDC", 0); ("DEP_OP", 0); ("CHARGE_FIX", 0);
     ("RECETTES", 0)]%float
  /\ get_transactions None Scenarios.bB = [].
Proof. repeat split. Qed.

Example scenario_C :
  get_synthese_mensuelle Scenarios.maintenant (Some 2024) (Some 1) Scenarios.bC
  = [("BDC", 500%float); ("Charge Fixe", 300%float)].
Proof. reflexivity. Qed.

(** C1 as stated fails: after a recording whose credit code is not in the
    chart of accounts the balances sum to the amount recorded. *)
Lemma somme_soldes_code_inconnu :
  accessible tous_codes Scenarios.b_inconnu
  /\ somme_soldes Scenarios.b_inconnu = 1000%float
  /\ somme_soldes Scenarios.b_inconnu <> 0%float.
Proof.
  split; [|split].
  - unfold Scenarios.b_inconnu, Scenarios.ajouter. accessible_par_calcul.
  - reflexivity.
  - apply float_distinct; reflexivity.
Qed.

(** With binary64 amounts the sum of the balances leaves 0 also when every
    code is in the chart of accounts: 0.1 from RECETTES to INVEST, then 0.2
    from SYS_BDC to INVEST. *)
Lemma somme_soldes_binary64 :
  accessible codes_connus Scenarios.b_trois_comptes
  /\ map (@solde_actuel float) (comptes Scenarios.b_trois_comptes)
     = [0.30000000000000004; -0.2; 0; 0; -0.1]%float
  /\ somme_soldes Scenarios.b_trois_comptes <> 0%float.
Proof.
  split; [|split].
  - unfold Scenarios.b_trois_comptes, Scenarios.b_01, Scenarios.ajouter.
    accessible_par_calcul.
  - reflexivity.
  - apply float_distinct; reflexivity.
Qed.

(** The run of [somme_soldes_binary64] is one that rounds, at its second
    recording, which adds 0.2 to a balance of 0.1; the first recording does
    not round. *)
Example ajout_qui_arrondit :
  ajout_exact "INVEST" "RECETTES" 0.1%float Scenarios.b0 = true
  /\ ajout_exact "INVEST" "SYS_BDC" 0.2%float Scenarios.b_01 = false.
Proof. split; vm_compute; reflexivity. Qed.

(** C4 as stated fails: on a balance of 0.1, recording 0.2 and reversing it
    leaves 0.10000000000000003. *)
Lemma aller_retour_binary64 :
  accessible tous_codes Scenarios.b_01
  /\ ajouter_transaction None Scenarios.le_10_janvier "INVEST" "RECETTES"
       0.2%float "x" "BDC" None None Scenarios.b_01
     = ((true, Transaction_ajoutee), Scenarios.b_01_02)
  /\ sqlite_sequence Scenarios.b_01_02 = 2
  /\ supprimer_transaction None 2 Scenarios.b_01_02
     = ((true, Transaction_supprimee), Scenarios.b_01_02_moins_02)
  /\ solde "INVEST" Scenarios.b_01 = Some 0.1%float
  /\ solde "INVEST" Scenarios.b_01_02_moins_02 = Some 0.10000000000000003%float
  /\ (0.10000000000000003 <> 0.1)%float.
Proof.
  split.
  - unfold Scenarios.b_01, Scenarios.ajouter. accessible_par_calcul.
  - repeat split. apply float_distinct; reflexivity.
Qed.

(** C5 as stated fails: after recording 0.1 and 0.2 to the debit of INVEST
    and reversing the first, the balance of INVEST is 0.20000000000000004
    and the one stored transaction that debits it amounts to 0.2. *)
Lemma solde_binary64 :
  accessible tous_codes Scenarios.b_01_02_moins_01
  /\ solde "INVEST" Scenarios.b_01_02_moins_01 = Some 0.20000000000000004%float
  /\ total_debit "INVEST" Scenarios.b_01_02_moins_01 = 0.2%float
  /\ total_credit "INVEST" Scenarios.b_01_02_moins_01 = 0%float
  /\ (0.20000000000000004 <> nsub 0.2 0)%float.
Proof.
  split.
  - unfold Scenarios.b_01_02_moins_01, Scenarios.b_01_02, Scenarios.b_01,
      Scenarios.ajouter, Scenarios.supprimer.
    accessible_par_calcul.
  - repeat split. apply float_distinct; reflexivity.
Qed.

(** ** The monthly summary *)

Lemma str_sur4 : forall a, 1000 <= a <= 9999 -> Py.str a = sur4 a.
Proof.
  intros a Ha. unfold Py.str.
  destruct (Z.ltb_spec a 0) as [L|_]; [lia|].
  assert (Hl : 9 <= Z.log2 a) by (apply Z.log2_le_pow2; simpl; lia).
  destruct (Z.to_nat (Z.log2 a)) as [|[|[|k]]] eqn:Ek; try lia.
  cbn [Py.chiffres].
  destruct (Z.eqb_spec (a / 10) 0) as [E|_];
    [exfalso; revert E; Z.div_mod_to_equations; lia|].
  destruct (Z.eqb_spec (a / 10 / 10) 0) as [E|_];
    [exfalso; revert E; Z.div_mod_to_equations; lia|].
  destruct (Z.eqb_spec (a / 10 / 10 / 10) 0) as [E|_];
    [exfalso; revert E; Z.div_mod_to_equations; lia|].
  destruct (Z.eqb_spec (a / 10 / 10 / 10 / 10) 0) as [_|N];
    [|exfalso; revert N; Z.div_mod_to_equations; lia].
  unfold sur4.
  replace (a / 10 / 10 / 10 mod 10) with (a / 1000)
    by (Z.div_mod_to_equations; lia).
  replace (a / 10 / 10) with (a / 100) by (Z.div_mod_to_equations; lia).
  reflexivity.
Qed.

Lemma format_02d_sur2 : forall m, 1 <= m <= 12 -> Py.format_02d m = sur2 m.
Proof.
  intros m Hm.
  assert (E : m = 1 \/ m = 2 \/ m = 3 \/ m = 4 \/ m = 5 \/ m = 6 \/ m = 7
              \/ m = 8 \/ m = 9 \/ m = 10 \/ m = 11 \/ m = 12) by lia.
  repeat (destruct E as [E|E]; [subst m; reflexivity|]). subst m. reflexivity.
Qed.

Lemma string_compare_refl : forall s, String.compare s s = Eq.
Proof.
  intro s. pose proof (String.compare_antisym s s) as H.
  destruct (String.compare s s); simpl in H; congruence.
Qed.

Lemma sur4_eqb :
  forall n p, 0 <= n <= 9999 -> 0 <= p <= 9999 ->
    (sur4 n =? sur4 p)%string = (n =? p).
Proof.
  intros n p Hn Hp.
  pose proof (sur4_compare n p "" "" Hn Hp) as H.
  destruct (String.eqb_spec (sur4 n) (sur4 p)) as [E|N];
    destruct (Z.eqb_spec n p) as [E'|N']; try reflexivity.
  - rewrite E, string_compare_refl in H.
    destruct (Z.compare_spec n p); [lia|discriminate|discriminate].
  - subst p. congruence.
Qed.

Lemma sur2_eqb :
  forall n p, 0 <= n <= 99 -> 0 <= p <= 99 ->
    (sur2 n =? sur2 p)%string = (n =? p).
Proof.
  intros n p Hn Hp.
  pose proof (sur2_compare n p "" "" Hn Hp) as H.
  destruct (String.eqb_spec (sur2 n) (sur2 p)) as [E|N];
    destruct (Z.eqb_spec n p) as [E'|N']; try reflexivity.
  - rewrite E, string_compare_refl in H.
    destruct (Z.compare_spec n p); [lia|discriminate|discriminate].
  - subst p. congruence.
Qed.

Section Synthese.

Context {num : Type} {M : Montant num}.

Lemma total_du_type_cumuler :
  forall k (v : num) acc type,
    total_du_type type (cumuler k v acc)
    = if (k =? type)%string
      then Some (nadd (match total_du_type k acc with
                       | Some s => s
                       | None => nzero
                       end) v)
      else total_du_type type acc.
Proof.
  intros k v acc type. induction acc as [|[k' s] acc IH]; simpl.
  - reflexivity.
  - destruct (String.eqb_spec k' k) as [E|N]; simpl.
    + subst k'. destruct (k =? type)%string; reflexivity.
    + rewrite IH. destruct (String.eqb_spec k type) as [E'|N'].
      * subst type. apply String.eqb_neq in N. now rewrite N.
      * reflexivity.
Qed.

Lemma cumuler_cles :
  forall k (v : num) acc,
    NoDup (map fst acc) ->
    NoDup (map fst (cumuler k v acc))
    /\ forall k', In k' (map fst (cumuler k v acc)) -> k' = k \/ In k' (map fst acc).
Proof.
  intros k v acc. induction acc as [|[k' s] acc IH]; simpl; intro Hnd.
  - split; [constructor; [intros [] | constructor] | intuition congruence].
  - inversion Hnd as [|? ? Hk Hacc]; subst.
    destruct (String.eqb_spec k' k) as [E|N]; simpl.
    + split; [exact Hnd | intuition congruence].
    + destruct (IH Hacc) as [IH1 IH2]. split.
      * constructor; [|exact IH1]. intro H. apply IH2 in H.
        destruct H; [congruence | contradiction].
      * intros x [Hx|Hx]; [tauto | apply IH2 in Hx; tauto].
Qed.

Lemma cumuls_dernier :
  forall (rows : list (string * num)) r,
    cumuls (rows ++ [r]) = cumuler (fst r) (snd r) (cumuls rows).
Proof. intros rows r. unfold cumuls. now rewrite fold_left_app. Qed.

(** The sums per type as a mapping, before they are put in order. *)
Lemma cumuls_total :
  forall (rows : list (string * num)) type,
    NoDup (map fst (cumuls rows))
    /\ total_du_type type (cumuls rows)
       = if existsb (fun r => (fst r =? type)%string) rows
         then Some (somme (map snd (filter (fun r => (fst r =? type)%string) rows)))
         else None.
Proof.
  intros rows type. revert type.
  induction rows as [|r rows IH] using rev_ind; intro type.
  - split; [constructor | reflexivity].
  - rewrite cumuls_dernier. split.
    + apply cumuler_cles. apply (IH type).
    + rewrite total_du_type_cumuler, existsb_app, filter_app, map_app. simpl.
      rewrite orb_false_r.
      destruct (String.eqb_spec (fst r) type) as [E|N].
      * subst type. rewrite orb_true_r.
        rewrite (proj2 (IH (fst r))). unfold somme. rewrite fold_left_app. simpl.
        destruct (existsb _ rows) eqn:Hex; [reflexivity|].
        replace (filter (fun r0 => (fst r0 =? fst r)%string) rows) with (@nil (string * num));
          [reflexivity|].
        symmetry. clear IH. induction rows as [|x rows IHr]; [reflexivity|].
        simpl in *. apply orb_false_elim in Hex. destruct Hex as [Hx Hex].
        rewrite Hx. now apply IHr.
      * rewrite orb_false_r, app_nil_r. apply (IH type).
Qed.

(** ORDER BY the type keeps the groups. *)
Lemma inserer_groupe_perm :
  forall (g : string * num) l, Permutation (inserer_groupe g l) (g :: l).
Proof.
  intros g l. induction l as [|h l IH]; simpl; [reflexivity|].
  destruct (text_ltb (fst h) (fst g)); [|reflexivity].
  rewrite IH. apply perm_swap.
Qed.

Lemma order_by_type_perm :
  forall l : list (string * num), Permutation (order_by_type l) l.
Proof.
  induction l as [|g l IH]; simpl; [reflexivity|].
  rewrite inserer_groupe_perm. now constructor.
Qed.

(** Among groups of distinct types, the total of a type is the amount of
    the group of that type, wherever the group stands. *)
Lemma total_du_type_In :
  forall type (l : list (string * num)),
    NoDup (map fst l) ->
    forall v, total_du_type type l = Some v <-> In (type, v) l.
Proof.
  intros type l. induction l as [|[k s] l IH]; simpl; intros Hnd v.
  - split; [discriminate | contradiction].
  - inversion Hnd as [|? ? Hk Hl]; subst.
    destruct (String.eqb_spec k type) as [E|N].
    + subst k. split.
      * intro H. left. congruence.
      * intros [H|H]; [congruence|].
        exfalso. apply Hk. change type with (fst (type, v)). now apply in_map.
    + rewrite (IH Hl v). split; [tauto|].
      intros [H|H]; [congruence | exact H].
Qed.

Lemma total_du_type_None :
  forall type (l : list (string * num)),
    total_du_type type l = None <-> ~ In type (map fst l).
Proof.
  intros type l. induction l as [|[k s] l IH]; simpl.
  - tauto.
  - destruct (String.eqb_spec k type) as [E|N].
    + split; [discriminate | tauto].
    + rewrite IH. tauto.
Qed.

Lemma total_du_type_perm :
  forall type (l l' : list (string * num)),
    NoDup (map fst l) ->
    Permutation l l' ->
    total_du_type type l' = total_du_type type l.
Proof.
  intros type l l' Hnd Hp.
  assert (Hnd' : NoDup (map fst l'))
    by (eapply Permutation_NoDup; [apply Permutation_map; exact Hp | exact Hnd]).
  destruct (total_du_type type l) as [v|] eqn:E.
  - apply (total_du_type_In _ _ Hnd) in E. apply (total_du_type_In _ _ Hnd').
    eapply Permutation_in; eassumption.
  - apply total_du_type_None in E. apply total_du_type_None.
    intro H. apply E. eapply Permutation_in; [|exact H].
    apply Permutation_map. now symmetry.
Qed.

(** GROUP BY with SUM as a mapping: a type has a row when some row of the
    input has it, and the row holds the sum of the amounts of these rows. *)
Lemma group_by_sum_total :
  forall (rows : list (string * num)) type,
    NoDup (map fst (group_by_sum rows))
    /\ total_du_type type (group_by_sum rows)
       = if existsb (fun r => (fst r =? type)%string) rows
         then Some (somme (map snd (filter (fun r => (fst r =? type)%string) rows)))
         else None.
Proof.
  intros rows type. unfold group_by_sum.
  destruct (cumuls_total rows type) as [Hnd Ht].
  pose proof (order_by_type_perm (cumuls rows)) as Hp.
  split.
  - eapply Permutation_NoDup; [|exact Hnd].
    apply Permutation_map. now symmetry.
  - rewrite <- Ht. apply total_du_type_perm; [exact Hnd | now symmetry].
Qed.

Lemma filter_map_type :
  forall (p : transaction num -> bool) type (l : list (transaction num)),
    map snd (filter (fun r => (fst r =? type)%string)
               (map (fun t => (type_transaction t, montant t)) (filter p l)))
    = map (@montant num)
        (filter (fun t => p t && (type_transaction t =? type)%string) l).
Proof.
  intros p type l. induction l as [|t l IH]; simpl; [reflexivity|].
  destruct (p t); simpl; [|exact IH].
  destruct (type_transaction t =? type)%string; simpl; now rewrite IH.
Qed.

Lemma existsb_map_type :
  forall (p : transaction num -> bool) type (l : list (transaction num)),
    existsb (fun r => (fst r =? type)%string)
      (map (fun t => (type_transaction t, montant t)) (filter p l))
    = existsb (fun t => p t && (type_transaction t =? type)%string) l.
Proof.
  intros p type l. induction l as [|t l IH]; simpl; [reflexivity|].
  destruct (p t); simpl; [|exact IH]. now rewrite IH.
Qed.

(** For a year of four digits and a month from 1 to 12, over transactions
    whose dates are dates, [get_synthese_mensuelle] gives one row per type
    that has a transaction in the month, and the row holds the sum of the
    amounts of the transactions of the type in the month. *)
Theorem get_synthese_mensuelle_mois :
  forall maintenant annee mois (b : base num) type,
    1000 <= annee <= 9999 ->
    1 <= mois <= 12 ->
    Forall (fun t => date_ok (date_transaction t) = true) (transactions b) ->
    NoDup (map fst (get_synthese_mensuelle maintenant (Some annee) (Some mois) b))
    /\ total_du_type type
         (get_synthese_mensuelle maintenant (Some annee) (Some mois) b)
       = if existsb (fun t => du_mois annee mois t
                              && (type_transaction t =? type)%string)
              (transactions b)
         then Some (total_type annee mois type b)
         else None.
Proof.
  intros maintenant annee mois b type Ha Hm Hok.
  unfold get_synthese_mensuelle, ou_defaut, Py.not_int.
  destruct (Z.eqb_spec annee 0) as [E|_]; [lia|].
  destruct (Z.eqb_spec mois 0) as [E|_]; [lia|].
  cbv zeta. simpl fst. simpl snd.
  rewrite (str_sur4 _ Ha), (format_02d_sur2 _ Hm).
  assert (Hf : filter (fun t : transaction num =>
                         (strftime_Y (date_transaction t) =? sur4 annee)%string
                         && (strftime_m (date_transaction t) =? sur2 mois)%string)
                 (transactions b)
               = filter (du_mois annee mois) (transactions b)).
  { apply filter_ext_in. intros t Ht.
    rewrite Forall_forall in Hok. apply Hok, date_ok_bornes in Ht.
    unfold strftime_Y, strftime_m, du_mois.
    rewrite sur4_eqb, sur2_eqb by lia. reflexivity. }
  rewrite Hf.
  split; [apply (group_by_sum_total _ type)|].
  rewrite (proj2 (group_by_sum_total _ type)).
  rewrite existsb_map_type, filter_map_type. reflexivity.
Qed.

End Synthese.

Lemma get_synthese_mensuelle_mois_witness :
  1000 <= 2024 <= 9999
  /\ 1 <= 1 <= 12
  /\ Forall (fun t => date_ok (date_transaction t) = true)
       (transactions Scenarios.bC)
  /\ get_synthese_mensuelle Scenarios.maintenant (Some 2024) (Some 1) Scenarios.bC
     = [("BDC", 500%float); ("Charge Fixe", 300%float)]
  /\ total_du_type "BDC"
       (get_synthese_mensuelle Scenarios.maintenant (Some 2024) (Some 1) Scenarios.bC)
     = Some (total_type 2024 1 "BDC" Scenarios.bC).
Proof.
  assert (H : Forall (fun t => date_ok (date_transaction t) = true)
                (transactions Scenarios.bC))
    by (repeat constructor).
  split; [lia|]. split; [lia|]. split; [exact H|]. split; [reflexivity|].
  exact (proj2 (get_synthese_mensuelle_mois Scenarios.maintenant 2024 1
                  Scenarios.bC "BDC" ltac:(lia) ltac:(lia) H)).
Defined.

(** C8 at a year of fewer than four digits: a transaction of January 999 is
    stored with the text 0999-01-15, of which [strftime('%Y', ...)] is 0999;
    [get_synthese_mensuelle(999, 1)] compares it with [str(999)], which is
    999, and returns no row where the month has 500 of type BDC. *)
Theorem get_synthese_mensuelle_an_999 :
  map (fun t => (isoformat (date_transaction t), type_transaction t, montant t))
    (transactions Scenarios.b_an_999)
  = [("0999-01-15", "BDC", 500%float)]
  /\ strftime_Y (mkDate 999 1 15) = "0999"
  /\ Py.str 999 = "999"
  /\ get_synthese_mensuelle Scenarios.maintenant (Some 999) (Some 1)
       Scenarios.b_an_999 = []
  /\ existsb (fun t => du_mois 999 1 t && (type_transaction t =? "BDC")%string)
       (transactions Scenarios.b_an_999) = true
  /\ total_type 999 1 "BDC" Scenarios.b_an_999 = 500%float.
Proof. repeat split. Qed.

(** * The rest of the class and of [main] *)

(** ** The table of accounts and its listing *)

Lemma string_compare_trans :
  forall s t u,
    String.compare s t <> Gt -> String.compare t u <> Gt ->
    String.compare s u <> Gt.
Proof.
  induction s as [|a s IH]; intros [|b t] [|c u]; simpl; try congruence.
  unfold Ascii.compare.
  destruct (N.compare_spec (N_of_ascii a) (N_of_ascii b)) as [E1|L1|G1];
    destruct (N.compare_spec (N_of_ascii b) (N_of_ascii c)) as [E2|L2|G2];
    destruct (N.compare_spec (N_of_ascii a) (N_of_ascii c)) as [E3|L3|G3];
    intros H1 H2; first [congruence | lia | eapply IH; eassumption].
Qed.

Section Comptes.

Context {num : Type} {M : Montant num}.

Lemma inserer_compte_perm :
  forall (c : compte num) l, Permutation (inserer_compte c l) (c :: l).
Proof.
  intros c l. induction l as [|d l IH]; simpl; [reflexivity|].
  destruct (text_ltb _ _); [|reflexivity].
  rewrite IH. apply perm_swap.
Qed.

Lemma order_by_code_compte_perm :
  forall l : list (compte num), Permutation (order_by_code_compte l) l.
Proof.
  induction l as [|c l IH]; simpl; [reflexivity|].
  rewrite inserer_compte_perm. now constructor.
Qed.

Lemma inserer_compte_sorted :
  forall (c : compte num) l,
    StronglySorted ordre_code l -> StronglySorted ordre_code (inserer_compte c l).
Proof.
  intros c l Hs. induction Hs as [|d l Hs IH Hd]; simpl.
  - constructor; constructor.
  - unfold text_ltb.
    destruct (String.compare (code_compte d) (code_compte c)) eqn:Hc.
    + constructor; [now constructor|].
      assert (Hcd : ordre_code c d).
      { unfold ordre_code. rewrite String.compare_antisym, Hc. discriminate. }
      constructor; [exact Hcd|].
      eapply Forall_impl; [|exact Hd].
      intros x Hx. unfold ordre_code in *.
      now apply string_compare_trans with (t := code_compte d).
    + constructor; [exact IH|].
      rewrite inserer_compte_perm. constructor; [|exact Hd].
      unfold ordre_code. rewrite Hc. discriminate.
    + constructor; [now constructor|].
      assert (Hcd : ordre_code c d).
      { unfold ordre_code. rewrite String.compare_antisym, Hc. discriminate. }
      constructor; [exact Hcd|].
      eapply Forall_impl; [|exact Hd].
      intros x Hx. unfold ordre_code in *.
      now apply string_compare_trans with (t := code_compte d).
Qed.

(** X1: [get_soldes_comptes] returns every row of the table of accounts,
    once, in the order of the codes, smallest first. *)
Theorem get_soldes_comptes_ordre :
  forall b : base num,
    Permutation (get_soldes_comptes b) (comptes b)
    /\ StronglySorted ordre_code (get_soldes_comptes b).
Proof.
  intro b. split; [apply order_by_code_compte_perm|].
  unfold get_soldes_comptes. induction (comptes b) as [|c l IH]; simpl.
  - constructor.
  - now apply inserer_compte_sorted.
Qed.

Lemma maj_solde_identite :
  forall f code (l : list (compte num)),
    map (fun c => (code_compte c, nom_compte c, type_compte c)) (maj_solde f code l)
    = map (fun c => (code_compte c, nom_compte c, type_compte c)) l.
Proof.
  intros f code l. unfold maj_solde. rewrite map_map. apply map_ext.
  intro c. destruct (code_compte c =? code)%string; reflexivity.
Qed.

(** No call creates, deletes or renames an account. *)
Lemma accessible_comptes :
  forall codes_ok (b : base num),
    accessible codes_ok b ->
    map (fun c => (code_compte c, nom_compte c, type_compte c)) (comptes b)
    = comptes_principaux.
Proof.
  intros codes_ok. apply accessible_effets.
  - reflexivity.
  - intros b d debit credit m desc type ref resp _ Hb _. simpl.
    now rewrite !maj_solde_identite.
  - intros b t _ Hb _. simpl. now rewrite !maj_solde_identite.
Qed.

(** X2: in every database reached by the two writing methods the table of
    accounts holds the five accounts of [init_database], with their codes,
    names and types, and [get_soldes_comptes] lists them as CHARGE_FIX,
    DEP_OP, INVEST, RECETTES, SYS_BDC. *)
Theorem comptes_invariables :
  forall codes_ok (b : base num),
    accessible codes_ok b ->
    map (fun c => (code_compte c, nom_compte c, type_compte c)) (comptes b)
    = comptes_principaux
    /\ map (@code_compte num) (get_soldes_comptes b)
       = ["CHARGE_FIX"; "DEP_OP"; "INVEST"; "RECETTES"; "SYS_BDC"].
Proof.
  intros codes_ok b Hb. split; [now apply accessible_comptes with codes_ok|].
  pose proof (accessible_codes _ _ Hb) as Hc.
  unfold get_soldes_comptes.
  destruct (comptes b) as [|c1 [|c2 [|c3 [|c4 [|c5 [|c6 l]]]]]]; try discriminate Hc.
  destruct c1, c2, c3, c4, c5. simpl in Hc.
  injection Hc as E1 E2 E3 E4 E5. subst. reflexivity.
Qed.

(** X3: constructing [ComptabiliteBTP()] on a database that the writing
    methods have reached changes nothing: [init_database] seeds no account
    and resets no balance. *)
Theorem init_database_accessible :
  forall codes_ok (b : base num),
    accessible codes_ok b -> init_database b = b.
Proof.
  intros codes_ok b Hb. pose proof (accessible_codes _ _ Hb) as Hc.
  unfold init_database. destruct (comptes b); [discriminate Hc | reflexivity].
Qed.

End Comptes.

Lemma comptes_invariables_witness :
  accessible tous_codes Scenarios.b_inconnu
  /\ map (@code_compte float) (get_soldes_comptes Scenarios.b_inconnu)
     = ["CHARGE_FIX"; "DEP_OP"; "INVEST"; "RECETTES"; "SYS_BDC"].
Proof.
  assert (H : accessible tous_codes Scenarios.b_inconnu)
    by (unfold Scenarios.b_inconnu, Scenarios.ajouter; accessible_par_calcul).
  split; [exact H|].
  exact (proj2 (comptes_invariables tous_codes Scenarios.b_inconnu H)).
Defined.

Lemma init_database_accessible_witness :
  accessible tous_codes Scenarios.bC
  /\ init_database Scenarios.bC = Scenarios.bC.
Proof.
  assert (H : accessible tous_codes Scenarios.bC)
    by (unfold Scenarios.bC, Scenarios.ajouter; accessible_par_calcul).
  split; [exact H|].
  exact (init_database_accessible tous_codes Scenarios.bC H).
Defined.

(** ** The ids of the transactions *)

Section Identifiants.

Context {num : Type} {M : Montant num}.

Lemma max_id_borne :
  forall (l : list (transaction num)) s,
    0 <= s -> Forall (fun t => 1 <= id t <= s) l -> max_id l <= s.
Proof.
  intros l s Hs H. induction H as [|t l Ht _ IH]; simpl; lia.
Qed.

Lemma ids_croissants_filter :
  forall (p : transaction num -> bool) l,
    StronglySorted Z.lt (map (@id num) l) ->
    StronglySorted Z.lt (map (@id num) (filter p l)).
Proof.
  intros p l. induction l as [|t l IH]; simpl; intro H; [constructor|].
  inversion H as [|? ? Hs Hf]; subst.
  destruct (p t); simpl; [|now apply IH].
  constructor; [now apply IH|].
  rewrite Forall_forall in *. intros x Hx. apply Hf.
  apply in_map_iff in Hx. destruct Hx as [u [Eu Hu]].
  apply filter_In in Hu. apply in_map_iff. exists u. tauto.
Qed.

Lemma ids_croissants_dernier :
  forall (l : list (transaction num)) t,
    StronglySorted Z.lt (map (@id num) l) ->
    Forall (fun u => id u < id t) l ->
    StronglySorted Z.lt (map (@id num) (l ++ [t])).
Proof.
  intros l t. induction l as [|u l IH]; simpl; intros Hs Hf.
  - repeat constructor.
  - inversion Hs as [|? ? Hs' Hu]; subst. inversion Hf as [|? ? Hut Hf']; subst.
    constructor; [now apply IH|].
    rewrite map_app, Forall_app. split; [exact Hu|]. now repeat constructor.
Qed.

(** The ids grow along the table and lie between 1 and the counter of
    [sqlite_sequence]. *)
Lemma accessible_ids_bornes :
  forall codes_ok (b : base num),
    accessible codes_ok b ->
    0 <= sqlite_sequence b
    /\ Forall (fun t => 1 <= id t <= sqlite_sequence b) (transactions b)
    /\ StronglySorted Z.lt (map (@id num) (transactions b)).
Proof.
  intros codes_ok. apply accessible_effets.
  - simpl. repeat split; [lia | constructor | constructor].
  - intros b d debit credit m desc type ref resp _ [H0 [Hb Hs]] _.
    pose proof (max_id_borne _ _ H0 Hb) as Hm.
    assert (E : prochain_id b = sqlite_sequence b + 1)
      by (unfold prochain_id; lia).
    simpl. rewrite E. split; [lia|]. split.
    + rewrite Forall_app. split.
      * eapply Forall_impl; [|exact Hb]. simpl. intros; lia.
      * repeat constructor; simpl; lia.
    + apply ids_croissants_dernier; [exact Hs|].
      eapply Forall_impl; [|exact Hb]. simpl. intros; lia.
  - intros b t _ [H0 [Hb Hs]] _. simpl. split; [exact H0|]. split.
    + rewrite Forall_forall in *. intros u Hu. apply filter_In in Hu.
      now apply Hb.
    + now apply ids_croissants_filter.
Qed.

(** X4: in every database reached by the two writing methods the stored
    transactions stand in the order of their ids, which are pairwise
    distinct, at least 1 and at most the counter of [sqlite_sequence]. *)
Theorem ids_croissants :
  forall codes_ok (b : base num),
    accessible codes_ok b ->
    StronglySorted Z.lt (map (@id num) (transactions b))
    /\ NoDup (map (@id num) (transactions b))
    /\ Forall (fun t => 1 <= id t <= sqlite_sequence b) (transactions b).
Proof.
  intros codes_ok b Hb.
  destruct (accessible_ids_bornes _ _ Hb) as [_ [Hf Hs]].
  split; [exact Hs|]. split; [|exact Hf]. now apply accessible_ids with codes_ok.
Qed.

(** X5: a recording that succeeds stores its transaction at the end of the
    table under the id that follows the counter and moves the counter to
    that id; a recording that fails and a reversal leave the counter where it
    was.  An id is therefore given once: the id of a reversed transaction is
    not given again. *)
Theorem ids_jamais_redonnes :
  forall codes_ok (b : base num) panne d debit credit m desc type ref resp tid,
    accessible codes_ok b ->
    (fst (fst (ajouter_transaction panne d debit credit m desc type ref resp b))
       = true ->
     snd (ajouter_transaction panne d debit credit m desc type ref resp b)
     = mkBase
         (transactions b
          ++ [mkTransaction (sqlite_sequence b + 1) d debit credit m desc type
                ref resp])
         (maj_solde (fun s => nsub s m) credit
            (maj_solde (fun s => nadd s m) debit (comptes b)))
         (sqlite_sequence b + 1))
    /\ (fst (fst (ajouter_transaction panne d debit credit m desc type ref resp b))
          = false ->
        snd (ajouter_transaction panne d debit credit m desc type ref resp b) = b)
    /\ sqlite_sequence (snd (supprimer_transaction panne tid b))
       = sqlite_sequence b.
Proof.
  intros codes_ok b panne d debit credit m desc type ref resp tid Hb.
  destruct (accessible_ids_bornes _ _ Hb) as [H0 [Hf _]].
  pose proof (max_id_borne _ _ H0 Hf) as Hm.
  assert (E : prochain_id b = sqlite_sequence b + 1)
    by (unfold prochain_id; lia).
  rewrite ajouter_transaction_eq, supprimer_transaction_eq.
  split; [|split].
  - destruct (nnull m || _); simpl; [discriminate|].
    intros _. unfold effets_ajout. now rewrite E.
  - destruct (nnull m || _); simpl; [reflexivity | discriminate].
  - destruct (find (fun t => id t =? tid) (transactions b)) as [t|];
      destruct panne as [[|k]|]; try reflexivity.
    destruct (S k <? 5)%nat; reflexivity.
Qed.

Lemma filter_id_perm :
  forall (l : list (transaction num)) t,
    NoDup (map (@id num) l) -> In t l ->
    Permutation (t :: filter (fun u => negb (id u =? id t)) l) l.
Proof.
  induction l as [|u l IH]; intros t Hnd Hin; [contradiction|].
  simpl in *. inversion Hnd as [|? ? Hu Hl]; subst.
  destruct Hin as [Hin|Hin].
  - subst u. rewrite Z.eqb_refl. simpl.
    rewrite filter_autres_ids; [reflexivity | exact Hu].
  - destruct (Z.eqb_spec (id u) (id t)) as [E|_].
    + exfalso. apply Hu. rewrite E. now apply in_map.
    + simpl. rewrite perm_swap. constructor. now apply IH.
Qed.

(** X6: in a database reached by the two writing methods, reversing a stored
    transaction by its id succeeds when no statement raises, commits the
    three effects of reversing that transaction and takes that one
    transaction out of the table; reversing the same id again finds nothing
    and changes nothing. *)
Theorem supprimer_transaction_stockee :
  forall codes_ok (b : base num) t,
    accessible codes_ok b ->
    In t (transactions b) ->
    supprimer_transaction None (id t) b
    = ((true, Transaction_supprimee), effets_suppression t b)
    /\ Permutation (t :: transactions (effets_suppression t b)) (transactions b)
    /\ supprimer_transaction None (id t) (effets_suppression t b)
       = ((false, Transaction_non_trouvee), effets_suppression t b).
Proof.
  intros codes_ok b t Hb Ht.
  pose proof (accessible_ids _ _ Hb) as Hnd.
  split; [|split].
  - rewrite supprimer_transaction_eq, (find_id_stocke _ _ Hnd Ht). reflexivity.
  - simpl. now apply filter_id_perm.
  - rewrite supprimer_transaction_eq. rewrite find_id_none; [reflexivity|].
    simpl. intros u Hu. apply filter_In in Hu. destruct Hu as [_ Hu].
    destruct (Z.eqb_spec (id u) (id t)); [discriminate | assumption].
Qed.

End Identifiants.

(** ** How the balances move *)

Section Mouvements.

Context {num : Type} {M : Montant num}.

Lemma solde_maj_solde :
  forall f code k (l : list (compte num)) ts s,
    solde k (mkBase ts (maj_solde f code l) s)
    = option_map (fun x => if (k =? code)%string then f x else x)
        (solde k (mkBase ts l s)).
Proof.
  intros f code k l ts s. unfold solde. simpl.
  induction l as [|c l IH]; simpl; [reflexivity|].
  destruct (String.eqb_spec (code_compte c) code) as [Ec|Nc]; simpl.
  - destruct (String.eqb_spec (code_compte c) k) as [Ek|Nk]; simpl.
    + rewrite <- Ek, Ec, String.eqb_refl. reflexivity.
    + exact IH.
  - destruct (String.eqb_spec (code_compte c) k) as [Ek|Nk]; simpl.
    + apply String.eqb_neq in Nc. rewrite <- Ek, Nc. reflexivity.
    + exact IH.
Qed.

Lemma option_map_id :
  forall (A : Type) (f : A -> A) (o : option A),
    (forall x, f x = x) -> option_map f o = o.
Proof. intros A f [x|] H; simpl; [now rewrite H | reflexivity]. Qed.

(** X7: a recording that succeeds between two different accounts adds the
    amount to the balance of the debit account and takes it from the balance
    of the credit account, leaves every other balance as it was, and gives no
    balance to a code that has no account. *)
Theorem ajouter_transaction_soldes :
  forall d debit credit (m : num) desc type ref resp (b : base num),
    nnull m = false ->
    debit <> credit ->
    solde debit (snd (ajouter_transaction None d debit credit m desc type ref resp b))
    = option_map (fun s => nadd s m) (solde debit b)
    /\ solde credit
         (snd (ajouter_transaction None d debit credit m desc type ref resp b))
       = option_map (fun s => nsub s m) (solde credit b)
    /\ forall code, code <> debit -> code <> credit ->
         solde code
           (snd (ajouter_transaction None d debit credit m desc type ref resp b))
         = solde code b.
Proof.
  intros d debit credit m desc type ref resp b Hn N.
  rewrite ajouter_transaction_eq, Hn. simpl snd. unfold effets_ajout.
  assert (Hb : forall k ts s, solde k (mkBase ts (comptes b) s) = solde k b)
    by reflexivity.
  split; [|split].
  - rewrite !solde_maj_solde, Hb.
    apply String.eqb_neq in N. rewrite N, String.eqb_refl.
    destruct (solde debit b); reflexivity.
  - rewrite !solde_maj_solde, Hb.
    assert (N' : credit <> debit) by congruence.
    apply String.eqb_neq in N'. rewrite N', String.eqb_refl.
    destruct (solde credit b); reflexivity.
  - intros code Nd Nc. rewrite !solde_maj_solde, Hb.
    apply String.eqb_neq in Nd, Nc. rewrite Nd, Nc.
    destruct (solde code b); reflexivity.
Qed.

(** X8: the reversal of a stored transaction between two different accounts,
    when it succeeds, takes its amount from the balance of its debit account
    and adds it to the balance of its credit account, and leaves every other
    balance as it was. *)
Theorem supprimer_transaction_soldes :
  forall tid (b : base num) t,
    find (fun u => id u =? tid) (transactions b) = Some t ->
    compte_debit t <> compte_credit t ->
    fst (supprimer_transaction None tid b) = (true, Transaction_supprimee)
    /\ solde (compte_debit t) (snd (supprimer_transaction None tid b))
       = option_map (fun s => nsub s (montant t)) (solde (compte_debit t) b)
    /\ solde (compte_credit t) (snd (supprimer_transaction None tid b))
       = option_map (fun s => nadd s (montant t)) (solde (compte_credit t) b)
    /\ forall code, code <> compte_debit t -> code <> compte_credit t ->
         solde code (snd (supprimer_transaction None tid b)) = solde code b.
Proof.
  intros tid b t Hf N.
  rewrite supprimer_transaction_eq, Hf. simpl fst. simpl snd.
  assert (Hb : forall k ts s, solde k (mkBase ts (comptes b) s) = solde k b)
    by reflexivity.
  split; [reflexivity|]. split; [|split].
  - rewrite !solde_maj_solde, Hb.
    apply String.eqb_neq in N. rewrite N, String.eqb_refl.
    destruct (solde (compte_debit t) b); reflexivity.
  - rewrite !solde_maj_solde, Hb.
    assert (N' : compte_credit t <> compte_debit t) by congruence.
    apply String.eqb_neq in N'. rewrite N', String.eqb_refl.
    destruct (solde (compte_credit t) b); reflexivity.
  - intros code Nd Nc. rewrite !solde_maj_solde, Hb.
    apply String.eqb_neq in Nd, Nc. rewrite Nd, Nc.
    destruct (solde code b); reflexivity.
Qed.

End Mouvements.

(** ** The listing and what [main] takes from it *)

Section Listing_main.

Context {num : Type} {M : Montant num}.


(** X10: the first [k] rows of [get_transactions(n)] are the rows of
    [get_transactions(k)] when [0 < k <= n] and [n] is of 64 bits: the chart
    of the dashboard, which takes [head(5)] of [get_transactions(10)], and
    its table, which asks for [get_transactions(5)], show the same five
    transactions. *)
Theorem get_transactions_head :
  forall (b : base num) (k n : Z),
    0 < k <= n ->
    n < 2 ^ 63 ->
    firstn (Z.to_nat k) (get_transactions (Some n) b) = get_transactions (Some k) b.
Proof.
  intros b k n Hk Hn. unfold get_transactions, sql_limit, Py.not_int, Py.int64.
  destruct (Z.eqb_spec n 0); [lia|]. destruct (Z.eqb_spec k 0); [lia|].
  destruct (Z.leb_spec (- 2 ^ 63) n); [|lia].
  destruct (Z.leb_spec (- 2 ^ 63) k); [|lia].
  destruct (Z.ltb_spec n (2 ^ 63)); [|lia].
  destruct (Z.ltb_spec k (2 ^ 63)); [|lia].
  destruct (Z.ltb_spec n 0); [lia|]. destruct (Z.ltb_spec k 0); [lia|].
  simpl. rewrite firstn_firstn. f_equal. lia.
Qed.

Lemma date_ge_refl : forall d, date_ge d d.
Proof. intros d H. apply date_compare_lt in H. lia. Qed.

(** X11: when the stored transactions have dates, [derniere_trans], the
    date of the first row of [get_transactions()], is the date of a stored
    transaction and no stored transaction has a later one; there is no such
    metric exactly when no transaction is stored. *)
Theorem derniere_trans_max :
  forall b : base num,
    Forall (fun t => date_ok (date_transaction t) = true) (transactions b) ->
    match derniere_trans b with
    | Some d =>
        (exists t, In t (transactions b) /\ date_transaction t = d)
        /\ forall t, In t (transactions b) -> date_ge d (date_transaction t)
    | None => transactions b = []
    end.
Proof.
  intros b Hok. unfold derniere_trans, get_transactions.
  pose proof (order_by_date_desc_perm (transactions b)) as Hp.
  pose proof (order_by_date_desc_sorted _ Hok) as Hs.
  destruct (order_by_date_desc (transactions b)) as [|t l].
  - apply Permutation_nil in Hp. exact Hp.
  - split.
    + exists t. split; [|reflexivity].
      eapply Permutation_in; [exact Hp | now left].
    + intros u Hu. apply Permutation_sym in Hp.
      apply (Permutation_in _ Hp) in Hu.
      inversion Hs as [|? ? _ Hf]; subst.
      destruct Hu as [Hu|Hu]; [subst u; apply date_ge_refl|].
      rewrite Forall_forall in Hf. now apply Hf.
Qed.

End Listing_main.

(** ** The monthly summary and its total *)

Section Synthese_main.

Context {num : Type} {M : Montant num}.

Lemma strftime_du_mois :
  forall annee mois (t : transaction num),
    1000 <= annee <= 9999 -> 1 <= mois <= 12 ->
    date_ok (date_transaction t) = true ->
    (strftime_Y (date_transaction t) =? Py.str annee)%string
    && (strftime_m (date_transaction t) =? Py.format_02d mois)%string
    = du_mois annee mois t.
Proof.
  intros annee mois t Ha Hm Ht. apply date_ok_bornes in Ht.
  rewrite (str_sur4 _ Ha), (format_02d_sur2 _ Hm).
  unfold strftime_Y, strftime_m, du_mois.
  rewrite sur4_eqb, sur2_eqb by lia. reflexivity.
Qed.

(** The summary of a month of a year of four digits groups the transactions
    of the month. *)
Lemma get_synthese_mensuelle_groupe :
  forall maintenant annee mois (b : base num),
    1000 <= annee <= 9999 -> 1 <= mois <= 12 ->
    Forall (fun t => date_ok (date_transaction t) = true) (transactions b) ->
    get_synthese_mensuelle maintenant (Some annee) (Some mois) b
    = group_by_sum
        (map (fun t => (type_transaction t, montant t))
           (filter (du_mois annee mois) (transactions b))).
Proof.
  intros maintenant annee mois b Ha Hm Hok.
  unfold get_synthese_mensuelle, ou_defaut, Py.not_int.
  destruct (Z.eqb_spec annee 0) as [E|_]; [lia|].
  destruct (Z.eqb_spec mois 0) as [E|_]; [lia|].
  cbv zeta. simpl fst. simpl snd. do 2 f_equal.
  apply filter_ext_in. intros t Ht. rewrite Forall_forall in Hok.
  apply strftime_du_mois; auto.
Qed.

Lemma cumuler_non_vide :
  forall k (v : num) acc, cumuler k v acc <> [].
Proof.
  intros k v [|[k' s] acc]; simpl; [discriminate|].
  destruct (k' =? k)%string; discriminate.
Qed.

Lemma group_by_sum_vide :
  forall rows : list (string * num), group_by_sum rows = [] <-> rows = [].
Proof.
  intro rows. split; [|intro E; now subst].
  unfold group_by_sum. intro H.
  pose proof (order_by_type_perm (cumuls rows)) as Hp. rewrite H in Hp.
  apply Permutation_nil in Hp. revert Hp.
  destruct rows as [|r rows] using rev_ind; [reflexivity|].
  rewrite cumuls_dernier. intro H'. now apply cumuler_non_vide in H'.
Qed.

(** X12: for a year of four digits and a month from 1 to 12, over
    transactions whose dates are dates, [get_synthese_mensuelle] returns no
    row, and the page "Analyses" says that the month has no transaction,
    exactly when no stored transaction is of that month. *)
Theorem get_synthese_mensuelle_vide :
  forall maintenant annee mois (b : base num),
    1000 <= annee <= 9999 ->
    1 <= mois <= 12 ->
    Forall (fun t => date_ok (date_transaction t) = true) (transactions b) ->
    get_synthese_mensuelle maintenant (Some annee) (Some mois) b = []
    <-> forall t, In t (transactions b) -> du_mois annee mois t = false.
Proof.
  intros maintenant annee mois b Ha Hm Hok.
  rewrite (get_synthese_mensuelle_groupe maintenant _ _ _ Ha Hm Hok).
  rewrite group_by_sum_vide. split.
  - intros H t Ht. apply map_eq_nil in H.
    destruct (du_mois annee mois t) eqn:Hd; [|reflexivity].
    assert (Hin : In t (filter (du_mois annee mois) (transactions b)))
      by (apply filter_In; now split).
    rewrite H in Hin. contradiction.
  - intro H. induction (transactions b) as [|t l IH]; [reflexivity|].
    simpl. rewrite (H t (or_introl eq_refl)). apply IH.
    + now inversion Hok.
    + intros u Hu. apply H. now right.
Qed.

Lemma filter_hors_id :
  forall (P : transaction num -> bool) tid (l : list (transaction num)),
    (forall u, In u l -> id u = tid -> P u = false) ->
    filter P (filter (fun u => negb (id u =? tid)) l) = filter P l.
Proof.
  intros P tid l H. induction l as [|u l IH]; [reflexivity|].
  simpl. destruct (Z.eqb_spec (id u) tid) as [Eu|Nu]; simpl.
  - rewrite (H u (or_introl eq_refl) Eu). apply IH.
    intros v Hv. apply H. now right.
  - rewrite IH; [reflexivity|]. intros v Hv. apply H. now right.
Qed.

(** X13: recording a transaction dated in another month, or in another
    year, leaves the summary of a month as it was, and so does reversing
    one; the year has four digits and the month is from 1 to 12. *)
Theorem get_synthese_mensuelle_autres_mois :
  forall maintenant annee mois panne d debit credit (m : num) desc type ref resp
         tid (b : base num),
    1000 <= annee <= 9999 ->
    1 <= mois <= 12 ->
    date_ok d = true ->
    year d <> annee \/ month d <> mois ->
    (forall t, In t (transactions b) -> id t = tid ->
       date_ok (date_transaction t) = true
       /\ (year (date_transaction t) <> annee
           \/ month (date_transaction t) <> mois)) ->
    get_synthese_mensuelle maintenant (Some annee) (Some mois)
      (snd (ajouter_transaction panne d debit credit m desc type ref resp b))
    = get_synthese_mensuelle maintenant (Some annee) (Some mois) b
    /\ get_synthese_mensuelle maintenant (Some annee) (Some mois)
         (snd (supprimer_transaction panne tid b))
       = get_synthese_mensuelle maintenant (Some annee) (Some mois) b.
Proof.
  intros maintenant annee mois panne d debit credit m desc type ref resp tid b
         Ha Hm Hd Hautre Htid.
  assert (Hors : forall t : transaction num,
             date_ok (date_transaction t) = true ->
             year (date_transaction t) <> annee
             \/ month (date_transaction t) <> mois ->
             (strftime_Y (date_transaction t) =? Py.str annee)%string
             && (strftime_m (date_transaction t) =? Py.format_02d mois)%string
             = false).
  { intros t Hok Ht. rewrite (strftime_du_mois _ _ _ Ha Hm Hok).
    unfold du_mois. destruct Ht as [Ht|Ht]; apply Z.eqb_neq in Ht; rewrite Ht;
      [reflexivity | apply andb_false_r]. }
  set (P := fun t : transaction num =>
              (strftime_Y (date_transaction t) =? Py.str annee)%string
              && (strftime_m (date_transaction t) =? Py.format_02d mois)%string)
    in *.
  assert (Hg : forall b' : base num,
             get_synthese_mensuelle maintenant (Some annee) (Some mois) b'
             = group_by_sum
                 (map (fun t => (type_transaction t, montant t))
                    (filter P (transactions b')))).
  { intro b'. unfold get_synthese_mensuelle, ou_defaut, Py.not_int.
    destruct (Z.eqb_spec annee 0) as [E|_]; [lia|].
    destruct (Z.eqb_spec mois 0) as [E|_]; [lia|]. reflexivity. }
  rewrite !Hg.
  split.
  - rewrite ajouter_transaction_eq.
    destruct (nnull m || _); [reflexivity|]. simpl snd.
    unfold effets_ajout. simpl transactions. rewrite filter_app.
    set (x := mkTransaction (prochain_id b) d debit credit m desc type ref resp).
    change (filter P [x]) with (if P x then [x] else []).
    replace (P x) with false by (symmetry; exact (Hors x Hd Hautre)).
    now rewrite app_nil_r.
  - assert (Hf : filter P (filter (fun u => negb (id u =? tid)) (transactions b))
                 = filter P (transactions b)).
    { apply filter_hors_id.
      intros u Hu Eu. destruct (Htid u Hu Eu) as [Hok Hu'].
      exact (Hors u Hok Hu'). }
    rewrite supprimer_transaction_eq.
    destruct (find (fun t => id t =? tid) (transactions b)) as [t|];
      destruct panne as [[|k]|]; try reflexivity; simpl snd; simpl transactions;
      try (now rewrite Hf).
    destruct (S k <? 5)%nat; simpl snd; simpl transactions;
      [reflexivity | now rewrite Hf].
Qed.

End Synthese_main.

(** ** The balances as a function of the stored transactions *)

Section Fonction_des_transactions.

Context {num : Type} {M : Montant num} {V : Valeur num}.

Lemma somme_valeurs_filter_perm :
  forall (p : transaction num -> bool) l l',
    Permutation l l' ->
    somme_valeurs (map (@montant num) (filter p l))
    = somme_valeurs (map (@montant num) (filter p l')).
Proof.
  intros p l l' H. apply somme_valeurs_perm, Permutation_map.
  induction H as [|x l l' _ IH|x y l|l l' l'' _ IH1 _ IH2]; simpl.
  - reflexivity.
  - destruct (p x); [now constructor | exact IH].
  - destruct (p x), (p y); try reflexivity. apply perm_swap.
  - now rewrite IH1.
Qed.

(** Two tables with the same codes, names and types, row by row, whose
    balances have the values that the codes call for. *)
Lemma comptes_selon_codes :
  forall (h : string -> Z) (l1 l2 : list (compte num)),
    map (fun c => (code_compte c, nom_compte c, type_compte c)) l1
    = map (fun c => (code_compte c, nom_compte c, type_compte c)) l2 ->
    (forall c, In c l1 -> valeur (solde_actuel c) = h (code_compte c)) ->
    (forall c, In c l2 -> valeur (solde_actuel c) = h (code_compte c)) ->
    map (fun c => (code_compte c, nom_compte c, type_compte c,
                   valeur (solde_actuel c))) l1
    = map (fun c => (code_compte c, nom_compte c, type_compte c,
                     valeur (solde_actuel c))) l2.
Proof.
  intros h l1. induction l1 as [|c1 l1 IH]; intros [|c2 l2] E H1 H2;
    try discriminate E; [reflexivity|].
  simpl in E. injection E as Ecode Enom Etype E. simpl. f_equal.
  - rewrite (H1 c1 (or_introl eq_refl)), (H2 c2 (or_introl eq_refl)).
    now rewrite Ecode, Enom, Etype.
  - apply IH; [exact E | |]; intros c Hc; [apply H1 | apply H2]; now right.
Qed.

(** Fewer restrictions on the codes give more runs. *)
Lemma accessible_exact_codes :
  forall (ok ok' : string -> string -> Prop) (b : base num),
    (forall debit credit, ok debit credit -> ok' debit credit) ->
    accessible_exact ok b -> accessible_exact ok' b.
Proof.
  intros ok ok' b Hok H.
  induction H;
    [apply acce_init | apply acce_ajouter; auto | apply acce_supprimer; auto].
Qed.

End Fonction_des_transactions.

(** X14: two databases reached by the two writing methods in runs where no
    UPDATE of a balance rounded, and that store the same transactions, have
    the same accounts with balances of the same values: the balances depend
    on the transactions that are stored, not on the recordings and reversals
    that led to them. *)
Theorem comptes_fonction_des_transactions :
  forall (b1 b2 : base float),
    accessible_exact tous_codes b1 ->
    accessible_exact tous_codes b2 ->
    Permutation (transactions b1) (transactions b2) ->
    map (fun c => (code_compte c, nom_compte c, type_compte c,
                   valeur (solde_actuel c))) (comptes b1)
    = map (fun c => (code_compte c, nom_compte c, type_compte c,
                     valeur (solde_actuel c))) (comptes b2).
Proof.
  intros b1 b2 H1 H2 Hp.
  apply (comptes_selon_codes
           (fun code => valeur_debit code b1 - valeur_credit code b1)).
  - rewrite (accessible_comptes _ _ (accessible_exact_accessible _ _ H1)).
    now rewrite (accessible_comptes _ _ (accessible_exact_accessible _ _ H2)).
  - intros c Hc. now destruct (accessible_exact_soldes b1 H1 c Hc) as [_ [_ Hv]].
  - intros c Hc. destruct (accessible_exact_soldes b2 H2 c Hc) as [_ [_ Hv]].
    rewrite Hv. unfold valeur_debit, valeur_credit.
    now rewrite (somme_valeurs_filter_perm
                   (fun t => (compte_debit t =? code_compte c)%string) _ _ Hp),
                (somme_valeurs_filter_perm
                   (fun t => (compte_credit t =? code_compte c)%string) _ _ Hp).
Qed.

(** ** The pages of [main] *)

Section Interface.

Context {num : Type} {M : Montant num}.

Lemma main_submitted_cas :
  forall panne d debit credit (m : num) desc type ref resp (b : base num),
    snd (main_submitted panne d debit credit m desc type ref resp b) = b
    \/ (debit <> credit /\ nle0 m = false /\ ~ blanche desc
        /\ snd (main_submitted panne d debit credit m desc type ref resp b)
           = effets_ajout d debit credit m desc type (Some ref) (Some resp) b
        /\ snd (main_submitted panne d debit credit m desc type ref resp b)
           = snd (ajouter_transaction panne d debit credit m desc type
                    (Some ref) (Some resp) b)).
Proof.
  intros panne d debit credit m desc type ref resp b. unfold main_submitted.
  destruct (String.eqb_spec debit credit) as [_|N]; [now left|].
  destruct (nle0 m) eqn:L; [now left|].
  destruct (Py.not_str (Py.strip desc)) eqn:B; [now left|].
  rewrite ajouter_transaction_eq.
  destruct (nnull m || _); simpl; [now left|]. right.
  repeat split; try assumption.
  intro H. apply strip_vide in H. congruence.
Qed.

Lemma main_supprimer_cas :
  forall panne trans_id (b : base num) r b',
    main_supprimer panne trans_id b = Some (r, b') ->
    transactions b <> []
    /\ b' = snd (supprimer_transaction panne trans_id b).
Proof.
  intros panne trans_id b r b'. unfold main_supprimer, get_transactions.
  pose proof (order_by_date_desc_perm (transactions b)) as Hp.
  destruct (order_by_date_desc (transactions b)) as [|t l]; [discriminate|].
  destruct (supprimer_transaction panne trans_id b) as [[success message] b''].
  intro H. split.
  - intro E. rewrite E in Hp. apply Permutation_sym, Permutation_nil in Hp.
    discriminate Hp.
  - destruct success; injection H as _ H; now subst.
Qed.

Lemma supprimer_transaction_incl :
  forall panne tid (b : base num),
    incl (transactions (snd (supprimer_transaction panne tid b))) (transactions b).
Proof.
  intros panne tid b. rewrite supprimer_transaction_eq.
  assert (Hf : incl (filter (fun u : transaction num => negb (id u =? tid))
                       (transactions b)) (transactions b))
    by (intros x Hx; apply filter_In in Hx; tauto).
  destruct (find (fun t => id t =? tid) (transactions b)) as [t|];
    destruct panne as [[|k]|]; try apply incl_refl; try exact Hf.
  destruct (S k <? 5)%nat; [apply incl_refl | exact Hf].
Qed.

(** What the pages reach is reached by the two writing methods with codes of
    the chart of accounts. *)
Lemma accessible_interface_connus :
  forall b : base num, accessible_interface b -> accessible codes_connus b.
Proof.
  intros b Hb.
  induction Hb as [|b Hb IH
                   |b panne d debit credit m desc type ref resp Hb IH Hd Hc
                   |b panne trans_id r b' Hb IH Hs].
  - apply acc_init.
  - pose proof (accessible_codes _ _ IH) as Hc.
    unfold init_database. destruct (comptes b); [discriminate Hc | exact IH].
  - destruct (main_submitted_cas panne d debit credit m desc type ref resp b)
      as [E|[_ [_ [_ [_ E]]]]]; rewrite E; [exact IH|].
    apply acc_ajouter; [exact IH|]. split; [exact Hd | exact Hc].
  - apply main_supprimer_cas in Hs. destruct Hs as [_ Hs]. subst b'.
    now apply acc_supprimer.
Qed.

(** X17: every transaction in a database that the pages of [main] have
    reached is one that the form accepts: its two accounts differ and are
    among the five of the select boxes, its amount is not [<= 0] and its
    description is not blank. *)
Theorem interface_transactions_valides :
  forall b : base num,
    accessible_interface b -> Forall transaction_valide (transactions b).
Proof.
  intros b Hb.
  induction Hb as [|b Hb IH
                   |b panne d debit credit m desc type ref resp Hb IH Hd Hc
                   |b panne trans_id r b' Hb IH Hs].
  - constructor.
  - unfold init_database. destruct (_ =? _)%nat; exact IH.
  - destruct (main_submitted_cas panne d debit credit m desc type ref resp b)
      as [E|[N [L [B [E _]]]]]; rewrite E; [exact IH|].
    simpl. apply Forall_app. split; [exact IH|].
    constructor; [|constructor]. unfold transaction_valide. simpl. tauto.
  - apply main_supprimer_cas in Hs. destruct Hs as [_ Hs]. subst b'.
    rewrite Forall_forall in *. intros t Ht. apply IH.
    now apply (supprimer_transaction_incl panne trans_id b).
Qed.

End Interface.

Section Interface_exacte.

Context {num : Type} {M : Montant num} {V : Valeur num}.

Lemma main_supprimer_succes :
  forall panne trans_id (b : base num) r b',
    main_supprimer panne trans_id b = Some (r, b') ->
    fst (fst (supprimer_transaction panne trans_id b)) = true ->
    r = Succes Transaction_supprimee.
Proof.
  intros panne trans_id b r b'. unfold main_supprimer.
  destruct (get_transactions None b) as [|t l]; [discriminate|].
  rewrite supprimer_transaction_eq.
  destruct (find (fun t => id t =? trans_id) (transactions b)) as [u|];
    destruct panne as [[|k]|]; simpl; try discriminate;
    try (intros H _; now injection H as <- _).
  destruct (S k <? 5)%nat; simpl; [discriminate|].
  intros H _. now injection H as <- _.
Qed.

(** What the pages reach without rounding is reached without rounding by
    the two writing methods with codes of the chart of accounts. *)
Lemma accessible_interface_exact_connus :
  forall b : base num,
    accessible_interface_exact b -> accessible_exact codes_connus b.
Proof.
  intros b Hb.
  induction Hb as [|b Hb IH
                   |b panne d debit credit m desc type ref resp Hb IH Hd Hc He
                   |b panne trans_id r b' Hb IH Hs He].
  - apply acce_init.
  - pose proof (accessible_codes _ _ (accessible_exact_accessible _ _ IH)) as Hc.
    unfold init_database. destruct (comptes b); [discriminate Hc | exact IH].
  - unfold main_submitted in *.
    destruct (debit =? credit)%string; [exact IH|].
    destruct (nle0 m); [exact IH|].
    destruct (Py.not_str (Py.strip desc)); [exact IH|].
    pose proof (ajouter_transaction_eq panne d debit credit m desc type
                  (Some ref) (Some resp) b) as Eq.
    destruct (ajouter_transaction panne d debit credit m desc type
                (Some ref) (Some resp) b) as [[success message] b''] eqn:Er.
    assert (Hb'' : accessible_exact codes_connus b'').
    { change b'' with (snd ((success, message), b'')). rewrite <- Er.
      apply acce_ajouter; [exact IH | now split |].
      rewrite Er. simpl. intro Hs. subst success. apply He.
      destruct (nnull m || _); [discriminate Eq|].
      injection Eq as -> _. reflexivity. }
    destruct success; exact Hb''.
  - pose proof (main_supprimer_succes _ _ _ _ _ Hs) as Hr.
    apply main_supprimer_cas in Hs. destruct Hs as [_ Hs]. subst b'.
    apply acce_supprimer; [exact IH|].
    intros t Ht Hf. apply He; [now apply Hr | exact Hf].
Qed.

End Interface_exacte.

(** X18: in every database that the pages of [main] have reached in a run
    where no UPDATE of a balance rounded, the balances are finite numbers
    that sum to 0 exactly, the sum that binary64 computes of them is 0 if
    its additions do not round either, and the balance of each account
    equals exactly the sum of the amounts of the stored transactions that
    debit it minus the sum of the amounts of those that credit it. *)
Theorem interface_equilibree :
  forall b : base float,
    accessible_interface_exact b ->
    Forall (fun c => fini (solde_actuel c) = true) (comptes b)
    /\ somme_valeurs (map (@solde_actuel float) (comptes b)) = 0
    /\ (additions_exactes nzero (map (@solde_actuel float) (comptes b)) = true ->
        PrimFloat.eqb (somme_soldes b) 0 = true)
    /\ forall c, In c (comptes b) ->
         valeur (solde_actuel c)
         = valeur_debit (code_compte c) b - valeur_credit (code_compte c) b.
Proof.
  intros b Hb. apply accessible_interface_exact_connus in Hb.
  destruct (accessible_exact_equilibre b Hb) as [Hf Hs].
  split; [exact Hf|]. split; [exact Hs|]. split.
  - intro Ha. destruct (somme_exacte _ Ha) as [Hfs Hvs].
    apply valeur_float_nulle; [exact Hfs|].
    unfold somme_soldes. simpl in *. now rewrite Hvs.
  - intros c Hc.
    assert (Ht : accessible_exact tous_codes b)
      by (apply (accessible_exact_codes codes_connus); [intros; exact I | exact Hb]).
    now destruct (accessible_exact_soldes b Ht c Hc) as [_ [_ Hv]].
Qed.

(** ** The password *)

(** X19: whatever the session holds, once a text is entered in the password
    input [check_password] grants access exactly when the text is btp2024;
    the text is then dropped from the session, and it is kept when it is
    wrong.  A fresh session has no access, and the callback raises when the
    session holds no text. *)
Theorem check_password_acces :
  check_password session_vide = false
  /\ (forall s, password s = None -> password_entered s = None)
  /\ forall texte s,
       exists s',
         text_input_password texte s = Some s'
         /\ check_password s' = (texte =? "btp2024")%string
         /\ password s'
            = if (texte =? "btp2024")%string then None else Some texte.
Proof.
  split; [reflexivity|]. split.
  - intros s Hs. unfold password_entered. now rewrite Hs.
  - intros texte s. unfold text_input_password, password_entered. simpl.
    destruct (texte =? "btp2024")%string; eexists; repeat split.
Qed.

(** ** Runs of the pages *)

Ltac accessible_scenario :=
  unfold Scenarios.bA, Scenarios.bC, Scenarios.b_01_02_moins_02,
    Scenarios.b_01_02, Scenarios.b_01, Scenarios.ajouter, Scenarios.supprimer;
  accessible_par_calcul.

Lemma ids_croissants_witness :
  accessible tous_codes Scenarios.bC
  /\ map (@id float) (transactions Scenarios.bC) = [1; 2; 3]
  /\ StronglySorted Z.lt (map (@id float) (transactions Scenarios.bC)).
Proof.
  assert (H : accessible tous_codes Scenarios.bC) by accessible_scenario.
  split; [exact H|]. split; [reflexivity|].
  exact (proj1 (ids_croissants tous_codes Scenarios.bC H)).
Defined.

Lemma ids_jamais_redonnes_witness :
  accessible tous_codes Scenarios.b_01_02_moins_02
  /\ map (@id float) (transactions Scenarios.b_01_02_moins_02) = [1]
  /\ map (@id float)
       (transactions
          (snd (ajouter_transaction None Scenarios.le_10_janvier "INVEST"
                  "RECETTES" 0.2%float "x" "BDC" None None
                  Scenarios.b_01_02_moins_02)))
     = [1; 3].
Proof.
  assert (H : accessible tous_codes Scenarios.b_01_02_moins_02)
    by accessible_scenario.
  split; [exact H|]. split; [reflexivity|].
  rewrite (proj1 (ids_jamais_redonnes tous_codes Scenarios.b_01_02_moins_02 None
                    Scenarios.le_10_janvier "INVEST" "RECETTES" 0.2%float "x"
                    "BDC" None None 0 H) eq_refl).
  reflexivity.
Defined.

Lemma supprimer_transaction_stockee_witness :
  accessible tous_codes Scenarios.bA
  /\ In Scenarios_main.tA (transactions Scenarios.bA)
  /\ supprimer_transaction None 1 Scenarios.bA
     = ((true, Transaction_supprimee),
        effets_suppression Scenarios_main.tA Scenarios.bA).
Proof.
  assert (H : accessible tous_codes Scenarios.bA) by accessible_scenario.
  assert (Hin : In Scenarios_main.tA (transactions Scenarios.bA))
    by (left; reflexivity).
  split; [exact H|]. split; [exact Hin|].
  exact (proj1 (supprimer_transaction_stockee tous_codes Scenarios.bA
                  Scenarios_main.tA H Hin)).
Defined.

Lemma ajouter_transaction_soldes_witness :
  nnull 1000%float = false
  /\ "INVEST" <> "RECETTES"
  /\ solde "INVEST" Scenarios.bA = Some 1000%float.
Proof.
  assert (N : "INVEST" <> "RECETTES") by discriminate.
  split; [reflexivity|]. split; [exact N|].
  exact (proj1 (ajouter_transaction_soldes Scenarios.le_10_janvier "INVEST"
                  "RECETTES" 1000%float "x" "Investissement" None None
                  Scenarios.b0 eq_refl N)).
Defined.

Lemma supprimer_transaction_soldes_witness :
  find (fun u => id u =? 1) (transactions Scenarios.bA) = Some Scenarios_main.tA
  /\ compte_debit Scenarios_main.tA <> compte_credit Scenarios_main.tA
  /\ solde "INVEST" (snd (supprimer_transaction None 1 Scenarios.bA))
     = Some 0%float.
Proof.
  assert (N : compte_debit Scenarios_main.tA <> compte_credit Scenarios_main.tA)
    by discriminate.
  split; [reflexivity|]. split; [exact N|].
  exact (proj1 (proj2 (supprimer_transaction_soldes 1 Scenarios.bA
                         Scenarios_main.tA eq_refl N))).
Defined.

Lemma get_transactions_head_witness :
  0 < 5 <= 10
  /\ 10 < 2 ^ 63
  /\ firstn 5 (get_transactions (Some 10) Scenarios.bC)
     = get_transactions (Some 5) Scenarios.bC.
Proof.
  split; [lia|]. split; [lia|].
  exact (get_transactions_head Scenarios.bC 5 10 ltac:(lia) ltac:(lia)).
Defined.

Lemma derniere_trans_max_witness :
  Forall (fun t => date_ok (date_transaction t) = true)
    (transactions Scenarios.bC)
  /\ derniere_trans Scenarios.bC = Some (mkDate 2024 2 1)
  /\ forall t, In t (transactions Scenarios.bC) ->
       date_ge (mkDate 2024 2 1) (date_transaction t).
Proof.
  assert (H : Forall (fun t => date_ok (date_transaction t) = true)
                (transactions Scenarios.bC))
    by (repeat constructor).
  split; [exact H|]. split; [reflexivity|].
  pose proof (derniere_trans_max Scenarios.bC H) as T.
  change (derniere_trans Scenarios.bC) with (Some (mkDate 2024 2 1)) in T.
  exact (proj2 T).
Defined.

Lemma get_synthese_mensuelle_vide_witness :
  1000 <= 2024 <= 9999
  /\ 1 <= 3 <= 12
  /\ Forall (fun t => date_ok (date_transaction t) = true)
       (transactions Scenarios.bC)
  /\ get_synthese_mensuelle Scenarios.maintenant (Some 2024) (Some 3) Scenarios.bC
     = [].
Proof.
  assert (H : Forall (fun t => date_ok (date_transaction t) = true)
                (transactions Scenarios.bC))
    by (repeat constructor).
  split; [lia|]. split; [lia|]. split; [exact H|].
  apply (proj2 (get_synthese_mensuelle_vide Scenarios.maintenant 2024 3
                  Scenarios.bC ltac:(lia) ltac:(lia) H)).
  intros t Ht. simpl in Ht.
  repeat (destruct Ht as [Ht|Ht]; [subst t; reflexivity|]). contradiction.
Defined.

Lemma get_synthese_mensuelle_autres_mois_witness :
  1000 <= 2024 <= 9999
  /\ 1 <= 1 <= 12
  /\ date_ok (mkDate 2024 3 9) = true
  /\ get_synthese_mensuelle Scenarios.maintenant (Some 2024) (Some 1)
       (snd (ajouter_transaction None (mkDate 2024 3 9) "DEP_OP" "INVEST"
               40%float "x" "Autre" None None Scenarios.bC))
     = get_synthese_mensuelle Scenarios.maintenant (Some 2024) (Some 1)
         Scenarios.bC
  /\ get_synthese_mensuelle Scenarios.maintenant (Some 2024) (Some 1)
       (snd (supprimer_transaction None 3 Scenarios.bC))
     = get_synthese_mensuelle Scenarios.maintenant (Some 2024) (Some 1)
         Scenarios.bC.
Proof.
  split; [lia|]. split; [lia|]. split; [reflexivity|].
  apply (get_synthese_mensuelle_autres_mois Scenarios.maintenant 2024 1 None
           (mkDate 2024 3 9) "DEP_OP" "INVEST" 40%float "x" "Autre" None None 3
           Scenarios.bC ltac:(lia) ltac:(lia) eq_refl).
  - right. discriminate.
  - intros t Ht Et. simpl in Ht.
    repeat (destruct Ht as [Ht|Ht];
            [subst t; first [discriminate Et
                            | split; [reflexivity | right; discriminate]]|]).
    contradiction.
Defined.

Lemma comptes_fonction_des_transactions_witness :
  accessible_exact tous_codes Scenarios_main.bC_detour
  /\ accessible_exact tous_codes Scenarios.bC
  /\ Permutation (transactions Scenarios_main.bC_detour)
       (transactions Scenarios.bC)
  /\ map (@solde_actuel float) (comptes Scenarios_main.bC_detour)
     = [0; 1200; 0; 300; -1500]%float
  /\ map (fun c => (code_compte c, nom_compte c, type_compte c,
                    valeur (solde_actuel c))) (comptes Scenarios_main.bC_detour)
     = map (fun c => (code_compte c, nom_compte c, type_compte c,
                      valeur (solde_actuel c))) (comptes Scenarios.bC).
Proof.
  assert (H1 : accessible_exact tous_codes Scenarios_main.bC_detour)
    by (unfold Scenarios_main.bC_detour, Scenarios.bC, Scenarios.ajouter,
          Scenarios.supprimer; accessible_exact_par_calcul).
  assert (H2 : accessible_exact tous_codes Scenarios.bC)
    by (unfold Scenarios.bC, Scenarios.ajouter; accessible_exact_par_calcul).
  assert (Hp : Permutation (transactions Scenarios_main.bC_detour)
                 (transactions Scenarios.bC))
    by apply Permutation_refl.
  split; [exact H1|]. split; [exact H2|]. split; [exact Hp|].
  split; [reflexivity|].
  exact (comptes_fonction_des_transactions Scenarios_main.bC_detour
           Scenarios.bC H1 H2 Hp).
Defined.

Lemma interface_transactions_valides_witness :
  accessible_interface Scenarios_main.b_formulaire
  /\ transactions Scenarios_main.b_formulaire
     = [mkTransaction 1 Scenarios.le_10_janvier "INVEST" "RECETTES" 1000%float
          "x" "Investissement" (Some "") (Some "")]
  /\ Forall transaction_valide (transactions Scenarios_main.b_formulaire).
Proof.
  assert (H : accessible_interface Scenarios_main.b_formulaire).
  { unfold Scenarios_main.b_formulaire, Scenarios.b0.
    apply ai_submitted; [apply ai_init | simpl; tauto | simpl; tauto]. }
  split; [exact H|]. split; [reflexivity|].
  exact (interface_transactions_valides Scenarios_main.b_formulaire H).
Defined.

Lemma interface_equilibree_witness :
  accessible_interface_exact Scenarios_main.b_formulaire
  /\ map (@solde_actuel float) (comptes Scenarios_main.b_formulaire)
     = [1000; 0; 0; 0; -1000]%float
  /\ PrimFloat.eqb (somme_soldes Scenarios_main.b_formulaire) 0 = true.
Proof.
  assert (H : accessible_interface_exact Scenarios_main.b_formulaire).
  { unfold Scenarios_main.b_formulaire, Scenarios.b0.
    apply aie_submitted;
      [apply aie_init | simpl; tauto | simpl; tauto
      |intros _; vm_compute; reflexivity]. }
  assert (Ha : additions_exactes nzero
                 (map (@solde_actuel float)
                    (comptes Scenarios_main.b_formulaire)) = true)
    by (vm_compute; reflexivity).
  split; [exact H|]. split; [reflexivity|].
  exact (proj1 (proj2 (proj2
           (interface_equilibree Scenarios_main.b_formulaire H))) Ha).
Defined.
